(** * BlackJack: shoe, hand scoring and the round engine

    A shallow embedding of the C++ sources (Card.h, constants.h,
    Hand.{h,cpp}, Shoe.{h,cpp}, GameStats.{h,cpp}, GameFunctions.cpp,
    main.cpp) and the properties of the round state machine.

    Conventions.  A C++ [int] is a [Z]; every counter and score of the
    program stays far below [2^31], so no wrap-around is written out.  A
    fixed-size array or a vector is a [list] of its length, read and
    written with stdpp's lookup and insert.  An index outside the array
    is undefined behaviour in C++; the embedding reads the default
    element and writes nothing there, and the properties below show that
    the indices of the program stay inside.  [std::string] is [string].
    The global generator behind [rand()] is an explicit stream of values
    with a read position.  The console is reduced to what the round needs
    of it: the answers to the hit/stand prompt are an explicit list of
    decisions, and the prompts and the dealer's draws are collected in a
    trace.  Loops without a bound of their own take fuel, and [None] says
    that the fuel, or the input, did not suffice. *)

From Stdlib Require Import ZArith Lia List Permutation.
From stdpp Require Import base tactics option list strings pretty gmap.

Local Open Scope Z_scope.

(** ** constants.h *)

Module Constants.
Definition MAX_PLAYER_COUNT : Z := 3.
Definition MAX_HAND_SIZE : Z := 12.
Definition SUIT_COUNT : Z := 4.
Definition RANK_COUNT : Z := 13.
Definition DECK_SIZE : Z := 52.
Definition NUMBER_OF_DECKS : Z := 6.
Definition STARTING_CARDS : Z := 2.
Definition RESHUFFLE_THRESHOLD : Z := 75.
Definition BLACKJACK : Z := 21.
Definition FACE_CARD_VALUE : Z := 10.
Definition ACE_HIGH : Z := 11.
Definition ACE_LOW : Z := 1.
Definition DEALER_STAND : Z := 17.
End Constants.
Import Constants.

(** ** Card.h *)

Record Card : Type := mkCard { rank : string; suit : string }.

#[global] Instance Card_eq_dec : EqDecision Card.
Proof. solve_decision. Defined.

(** A default-constructed [Card]: both strings empty. *)
Definition emptyCard : Card := mkCard "" "".

#[global] Instance Card_inhabited : Inhabited Card := populate emptyCard.

(** ** Hand.h, Hand.cpp *)

Module Hand.

(** [static const int MAX_HAND_SIZE = 11] of [struct Hand]; inside the
    member functions this name hides the global constant of the same
    name. *)
Definition MAX_HAND_SIZE : Z := 11.

Record t : Type := mk {
  owner : string;
  numCards : Z;
  card : list Card   (* Card card[MAX_HAND_SIZE] *)
}.

(** [Hand::Hand(const std::string &ownerName)] *)
Definition new (ownerName : string) : t :=
  mk ownerName 0 (replicate (Z.to_nat MAX_HAND_SIZE) emptyCard).

(** [Hand::Hand()] *)
Definition newDefault : t := new "Unknown".

(** [void Hand::addCardToHand(Card c)] *)
Definition addCardToHand (h : t) (c : Card) : t :=
  if bool_decide (numCards h < MAX_HAND_SIZE - 1)
     && bool_decide (rank c ≠ "") && bool_decide (suit c ≠ "")
  then mk (owner h) (numCards h + 1) (<[Z.to_nat (numCards h) := c]> (card h))
  else h.

(** The loop of [Hand::adjustScoreForAces]; every iteration decrements
    [aceCount], so [Z.to_nat aceCount] iterations exhaust it. *)
Fixpoint adjustLoop (fuel : nat) (score aceCount : Z) : Z :=
  match fuel with
  | O => score
  | S fuel' =>
      if bool_decide (score > BLACKJACK) && bool_decide (aceCount > 0)
      then adjustLoop fuel' (score - (ACE_HIGH - ACE_LOW)) (aceCount - 1)
      else score
  end.

(** [int Hand::adjustScoreForAces(int score, int aceCount) const] *)
Definition adjustScoreForAces (score aceCount : Z) : Z :=
  adjustLoop (Z.to_nat aceCount) score aceCount.

(** The local [std::map<std::string, int> cardValues]. *)
Definition cardValues : gmap string Z :=
  list_to_map
    [ ("A", ACE_HIGH); ("K", FACE_CARD_VALUE); ("Q", FACE_CARD_VALUE);
      ("J", FACE_CARD_VALUE); ("T", 10); ("9", 9); ("8", 8); ("7", 7);
      ("6", 6); ("5", 5); ("4", 4); ("3", 3); ("2", 2) ].

(** [std::map::operator[]]: a missing key is inserted with the
    value-initialised [int] 0, and the stored value is returned. *)
Definition map_index (m : gmap string Z) (k : string) : Z * gmap string Z :=
  match m !! k with
  | Some v => (v, m)
  | None => (0, <[k := 0]> m)
  end.

(** State of the scoring loop: [score], [aceCount], [cardValues]. *)
Definition scanStep (st : Z * Z * gmap string Z) (singleCard : Card)
  : Z * Z * gmap string Z :=
  let '(score, aceCount, values) := st in
  let '(v, values') := map_index values (rank singleCard) in
  let score' := score + v in
  let aceCount' :=
    if bool_decide (rank singleCard = "A") then aceCount + 1 else aceCount in
  (score', aceCount', values').

(** The range-based [for] over the whole array [card]. *)
Definition scanCards (cs : list Card) : Z * Z * gmap string Z :=
  fold_left scanStep cs (0, 0, cardValues).

(** [int Hand::evaluateHandScore() const] *)
Definition evaluateHandScore (h : t) : Z :=
  let '(score, aceCount, _) := scanCards (card h) in
  adjustScoreForAces score aceCount.

End Hand.

#[global] Instance Hand_inhabited : Inhabited Hand.t := populate Hand.newDefault.


(** ** The generator behind [rand()] *)

Module Rng.

(** [stream g n] is the value of the [n]-th call of [rand()] after
    [srand]; [rand()] returns an [int] in [0, RAND_MAX], hence [N]. *)
Record t : Type := mk { stream : nat → N; pos : nat }.

Definition rand (g : t) : N * t :=
  (stream g (pos g), mk (stream g) (S (pos g))).

End Rng.

(** ** Shoe.h, Shoe.cpp *)

Module Shoe.

(** [DECK_SIZE * NUMBER_OF_DECKS], the length of the array [cards]. *)
Definition SIZE : Z := DECK_SIZE * NUMBER_OF_DECKS.

Record t : Type := mk {
  cards : list Card;   (* Card cards[DECK_SIZE * NUMBER_OF_DECKS] *)
  currentCard : Z
}.

(** [Card Shoe::convertCardToSymbol(Card c)] *)
Definition convertCardToSymbol (c : Card) : Card :=
  if bool_decide (suit c = "S") then mkCard (rank c) "♠"
  else if bool_decide (suit c = "H") then mkCard (rank c) "♥"
  else if bool_decide (suit c = "C") then mkCard (rank c) "♣"
  else if bool_decide (suit c = "D") then mkCard (rank c) "♦"
  else c.

Definition suits : list string := ["C"; "D"; "H"; "S"].
Definition cardRanks : list string :=
  ["A"; "K"; "Q"; "J"; "T"; "9"; "8"; "7"; "6"; "5"; "4"; "3"; "2"].

(** The body of the innermost loop of [initializeDecks]:
    [cards[count++] = convertCardToSymbol(current)]. *)
Definition putCard (st : list Card * Z) (rs : string * string) : list Card * Z :=
  let '(cs, count) := st in
  let current := mkCard rs.1 rs.2 in
  (<[Z.to_nat count := convertCardToSymbol current]> cs, count + 1).

(** [void Shoe::initializeDecks()]: decks, then suits, then ranks. *)
Definition initializeDecks (s : t) : t :=
  let order :=
    flat_map (λ _ : nat,
      flat_map (λ st : string,
        map (λ rk : string, (rk, st))
          (firstn (Z.to_nat RANK_COUNT) cardRanks))
        (firstn (Z.to_nat SUIT_COUNT) suits))
      (seq 0 (Z.to_nat NUMBER_OF_DECKS)) in
  mk (fold_left putCard order (cards s, 0)).1 (currentCard s).

(** [std::swap(cards[i], cards[j])].  Both indices are in range wherever
    the program swaps. *)
Definition swap (cs : list Card) (i j : Z) : list Card :=
  let tmp := cs !!! Z.to_nat i in
  let cs1 := <[Z.to_nat i := cs !!! Z.to_nat j]> cs in
  <[Z.to_nat j := tmp]> cs1.

(** [n] iterations of the loop of [shuffleDecks], starting at index [i]. *)
Fixpoint shuffleLoop (n : nat) (i : Z) (cs : list Card) (g : Rng.t)
  : list Card * Rng.t :=
  match n with
  | O => (cs, g)
  | S n' =>
      let '(r, g') := Rng.rand g in
      let randomIndex := Z.rem (Z.of_N r) SIZE in
      shuffleLoop n' (i + 1) (swap cs i randomIndex) g'
  end.

(** [void Shoe::shuffleDecks()]; [currentCard] is not assigned. *)
Definition shuffleDecks (s : t) (g : Rng.t) : t * Rng.t :=
  let '(cs, g') := shuffleLoop (Z.to_nat SIZE) 0 (cards s) g in
  (mk cs (currentCard s), g').

(** [Shoe::Shoe()], on the default-constructed array. *)
Definition new (g : Rng.t) : t * Rng.t :=
  let s0 := mk (replicate (Z.to_nat SIZE) emptyCard) 0 in
  shuffleDecks (initializeDecks s0) g.

(** Which of the three [return] statements of [drawCardFromShoe] ran. *)
Inductive Branch : Type := Reshuffled | NextCard | Exhausted.

#[global] Instance Branch_eq_dec : EqDecision Branch.
Proof. solve_decision. Defined.

Record Drawn : Type := mkDrawn {
  drawn : Card;      (* the returned card *)
  readAt : Z;        (* the index the card was read at *)
  branch : Branch;
  shoe : t;
  rng : Rng.t
}.

(** [return cards[currentCard++]] *)
Definition takeNext (s : t) (g : Rng.t) (b : Branch) : Drawn :=
  mkDrawn (cards s !!! Z.to_nat (currentCard s)) (currentCard s) b
          (mk (cards s) (currentCard s + 1)) g.

(** [Card Shoe::drawCardFromShoe()] *)
Definition drawCardFromShoe (s : t) (g : Rng.t) : Drawn :=
  if bool_decide (currentCard s >= SIZE - RESHUFFLE_THRESHOLD) then
    let '(s1, g1) := shuffleDecks s g in
    takeNext (mk (cards s1) 0) g1 Reshuffled
  else if bool_decide (currentCard s < SIZE) then
    takeNext s g NextCard
  else
    let '(s1, g1) := shuffleDecks s g in
    takeNext (mk (cards s1) 0) g1 Exhausted.

End Shoe.

(** ** GameStats.h, GameStats.cpp *)

Module GameStats.

Record t : Type := mk {
  playerWins : list Z;
  playerLosses : list Z;
  playerTies : list Z;
  playerBlackjacks : list Z;
  playerBlackjack : list bool;
  dealerBlackjack : bool;
  dealerWins : Z;
  dealerBlackjacks : Z;
  totalRounds : Z
}.

(** [GameStats::GameStats(int numPlayers)] *)
Definition new (numPlayers : Z) : t :=
  let n := Z.to_nat numPlayers in
  mk (replicate n 0) (replicate n 0) (replicate n 0) (replicate n 0)
     (replicate n false) false 0 0 0.

(** [v[i]++] on a [std::vector<int>]; the index is in range wherever the
    program increments. *)
Definition incr (i : nat) (v : list Z) : list Z := alter Z.succ i v.

Definition incrWins (i : nat) (s : t) : t :=
  mk (incr i (playerWins s)) (playerLosses s) (playerTies s)
     (playerBlackjacks s) (playerBlackjack s) (dealerBlackjack s)
     (dealerWins s) (dealerBlackjacks s) (totalRounds s).

Definition incrLosses (i : nat) (s : t) : t :=
  mk (playerWins s) (incr i (playerLosses s)) (playerTies s)
     (playerBlackjacks s) (playerBlackjack s) (dealerBlackjack s)
     (dealerWins s) (dealerBlackjacks s) (totalRounds s).

Definition incrTies (i : nat) (s : t) : t :=
  mk (playerWins s) (playerLosses s) (incr i (playerTies s))
     (playerBlackjacks s) (playerBlackjack s) (dealerBlackjack s)
     (dealerWins s) (dealerBlackjacks s) (totalRounds s).

Definition incrBlackjacks (i : nat) (s : t) : t :=
  mk (playerWins s) (playerLosses s) (playerTies s)
     (incr i (playerBlackjacks s)) (playerBlackjack s) (dealerBlackjack s)
     (dealerWins s) (dealerBlackjacks s) (totalRounds s).

Definition setPlayerBlackjack (i : nat) (b : bool) (s : t) : t :=
  mk (playerWins s) (playerLosses s) (playerTies s)
     (playerBlackjacks s) (<[i := b]> (playerBlackjack s)) (dealerBlackjack s)
     (dealerWins s) (dealerBlackjacks s) (totalRounds s).

Definition setDealerBlackjack (b : bool) (s : t) : t :=
  mk (playerWins s) (playerLosses s) (playerTies s)
     (playerBlackjacks s) (playerBlackjack s) b
     (dealerWins s) (dealerBlackjacks s) (totalRounds s).

Definition incrDealerWins (s : t) : t :=
  mk (playerWins s) (playerLosses s) (playerTies s)
     (playerBlackjacks s) (playerBlackjack s) (dealerBlackjack s)
     (dealerWins s + 1) (dealerBlackjacks s) (totalRounds s).

Definition incrDealerBlackjacks (s : t) : t :=
  mk (playerWins s) (playerLosses s) (playerTies s)
     (playerBlackjacks s) (playerBlackjack s) (dealerBlackjack s)
     (dealerWins s) (dealerBlackjacks s + 1) (totalRounds s).

Definition incrTotalRounds (s : t) : t :=
  mk (playerWins s) (playerLosses s) (playerTies s)
     (playerBlackjacks s) (playerBlackjack s) (dealerBlackjack s)
     (dealerWins s) (dealerBlackjacks s) (totalRounds s + 1).

End GameStats.

(** ** GameFunctions.cpp *)

Module Game.

(** The two values [getUserDecision] can return, ["hit"] and ["stand"]. *)
Inductive Decision : Type := Hit | Stand.

(** What the table observes during the turns. *)
Inductive Event : Type :=
| Asked (ownerName : string) (d : Decision)   (* a hit/stand prompt, answered *)
| DealerDrew (c : Card).                      (* a card drawn in the dealer's loop *)

(** [hands.back()] *)
Definition back (hands : list Hand.t) : Hand.t := default Hand.newDefault (last hands).

(** [bool isBusted(const Hand &hand)] *)
Definition isBusted (hand : Hand.t) : bool :=
  bool_decide (Hand.evaluateHandScore hand > BLACKJACK).

(** [bool isBlackjack(const Hand &hand)] *)
Definition isBlackjack (hand : Hand.t) : bool :=
  bool_decide (Hand.numCards hand = 2)
  && bool_decide (Hand.evaluateHandScore hand = BLACKJACK).

(** [void compareHands(playerHand, dealerHand, stats, playerIndex)] *)
Definition compareHands (playerHand dealerHand : Hand.t) (stats : GameStats.t)
    (playerIndex : nat) : GameStats.t :=
  let playerScore := Hand.evaluateHandScore playerHand in
  let dealerScore := Hand.evaluateHandScore dealerHand in
  if isBusted playerHand then
    GameStats.incrLosses playerIndex stats
  else if isBlackjack playerHand && negb (isBlackjack dealerHand) then
    GameStats.incrBlackjacks playerIndex (GameStats.incrWins playerIndex stats)
  else if bool_decide (dealerScore > playerScore) && negb (isBusted dealerHand) then
    GameStats.incrDealerWins (GameStats.incrLosses playerIndex stats)
  else if bool_decide (playerScore > dealerScore) then
    GameStats.incrWins playerIndex stats
  else if bool_decide (playerScore = dealerScore) then
    GameStats.incrTies playerIndex stats
  else stats.

(** [bool shouldEndRoundEarly(const GameStats &stats)] *)
Definition shouldEndRoundEarly (stats : GameStats.t) : bool :=
  if GameStats.dealerBlackjack stats then
    if existsb (λ playerHasBlackjack : bool, playerHasBlackjack)
               (GameStats.playerBlackjack stats)
    then false
    else true
  else false.

(** [Hand drawFromShoe(Hand &hand, Shoe &deck)] *)
Definition drawFromShoe (hand : Hand.t) (deck : Shoe.t) (g : Rng.t)
  : Hand.t * Shoe.t * Rng.t :=
  let d := Shoe.drawCardFromShoe deck g in
  let drawnCard := Shoe.drawn d in
  if bool_decide (rank drawnCard ≠ "") && bool_decide (suit drawnCard ≠ "")
  then (Hand.addCardToHand hand drawnCard, Shoe.shoe d, Shoe.rng d)
  else (hand, Shoe.shoe d, Shoe.rng d).

(** [std::vector<Hand> initializeGameHands(int numPlayers)] *)
Definition initializeGameHands (numPlayers : Z) : list Hand.t :=
  map (λ i : nat, Hand.new ("Player " +:+ pretty (Z.of_nat i + 1)))
      (seq 0 (Z.to_nat numPlayers))
  ++ [Hand.new "Dealer"].

(** One [drawFromShoe(hand, deck)] of [dealCards], on [hands[i]]. *)
Definition dealOne (st : list Hand.t * Shoe.t * Rng.t) (i : nat)
  : list Hand.t * Shoe.t * Rng.t :=
  let '(hands, deck, g) := st in
  let '(hand, deck', g') := drawFromShoe (hands !!! i) deck g in
  (<[i := hand]> hands, deck', g').

(** [void dealCards(std::vector<Hand> &hands, Shoe &deck)] *)
Definition dealCards (hands : list Hand.t) (deck : Shoe.t) (g : Rng.t)
  : list Hand.t * Shoe.t * Rng.t :=
  fold_left
    (λ st (_ : nat), fold_left dealOne (seq 0 (length hands)) st)
    (seq 0 (Z.to_nat STARTING_CARDS))
    (hands, deck, g).

(** [void checkBlackjack(hands, stats, numPlayers)]; the loops run over
    [i < hands.size() - 1]. *)
Definition checkBlackjack (hands : list Hand.t) (stats : GameStats.t)
    (numPlayers : Z) : GameStats.t :=
  let stats := GameStats.setDealerBlackjack (isBlackjack (back hands)) stats in
  let players := seq 0 (length hands - 1) in
  if GameStats.dealerBlackjack stats then
    let '(stats, anyPlayerHasBlackjack) :=
      fold_left
        (λ '((st, anyBJ) : GameStats.t * bool) (i : nat),
           let b := isBlackjack (hands !!! i) in
           let st := GameStats.setPlayerBlackjack i b st in
           if b then (GameStats.incrTies i st, true)
           else (GameStats.incrLosses i st, anyBJ))
        players (stats, false) in
    if negb anyPlayerHasBlackjack then GameStats.incrDealerWins stats else stats
  else
    fold_left
      (λ (st : GameStats.t) (i : nat),
         GameStats.setPlayerBlackjack i (isBlackjack (hands !!! i)) st)
      players stats.

(** What the turns thread through: shoe, generator, pending console
    answers and the events so far. *)
Record Table : Type := mkTable {
  deck : Shoe.t;
  rng : Rng.t;
  input : list Decision;
  trace : list Event
}.

(** [bool hitOrStand(Hand &playerHand, const Hand &dealerHand, Shoe &deck)].
    Each pass of its loop reads one decision; with no answer left the
    prompt blocks for ever ([None]). *)
Fixpoint hitOrStand (inp : list Decision) (playerHand dealerHand : Hand.t)
    (deck : Shoe.t) (g : Rng.t) (tr : list Event)
  : option (bool * Hand.t * Table) :=
  match inp with
  | [] => None
  | decision :: inp' =>
      let tr' := tr ++ [Asked (Hand.owner playerHand) decision] in
      match decision with
      | Hit =>
          let d := Shoe.drawCardFromShoe deck g in
          let playerHand' := Hand.addCardToHand playerHand (Shoe.drawn d) in
          if bool_decide (Hand.evaluateHandScore playerHand' > BLACKJACK)
          then Some (false, playerHand', mkTable (Shoe.shoe d) (Shoe.rng d) inp' tr')
          else hitOrStand inp' playerHand' dealerHand (Shoe.shoe d) (Shoe.rng d) tr'
      | Stand => Some (false, playerHand, mkTable deck g inp' tr')
      end
  end.

(** [while (hitOrStand(hand, hands.back(), deck)) ;] *)
Fixpoint playerTurn (fuel : nat) (hand dealerHand : Hand.t) (tb : Table)
  : option (Hand.t * Table) :=
  match hitOrStand (input tb) hand dealerHand (deck tb) (rng tb) (trace tb) with
  | None => None
  | Some (again, hand', tb') =>
      if again then
        match fuel with
        | O => None
        | S fuel' => playerTurn fuel' hand' dealerHand tb'
        end
      else Some (hand', tb')
  end.

(** The body of the [for (auto &hand : hands)] loop of [playRound]. *)
Definition turnOf (fuel : nat) (st : option (list Hand.t * Table)) (i : nat)
  : option (list Hand.t * Table) :=
  match st with
  | None => None
  | Some (hands, tb) =>
      let hand := hands !!! i in
      if bool_decide (Hand.owner hand ≠ "Dealer") && negb (isBlackjack hand) then
        match playerTurn fuel hand (back hands) tb with
        | None => None
        | Some (hand', tb') => Some (<[i := hand']> hands, tb')
        end
      else st
  end.

Definition playersTurns (fuel : nat) (hands : list Hand.t) (tb : Table)
  : option (list Hand.t * Table) :=
  fold_left (turnOf fuel) (seq 0 (length hands)) (Some (hands, tb)).

(** [while (dealerHand.evaluateHandScore() < DEALER_STAND)
       dealerHand.addCardToHand(deck.drawCardFromShoe());]
    [fuel] bounds the number of passes; [None] when it does not suffice. *)
Fixpoint dealerTurn (fuel : nat) (dealerHand : Hand.t) (tb : Table)
  : option (Hand.t * Table) :=
  if bool_decide (Hand.evaluateHandScore dealerHand < DEALER_STAND) then
    match fuel with
    | O => None
    | S fuel' =>
        let d := Shoe.drawCardFromShoe (deck tb) (rng tb) in
        dealerTurn fuel'
          (Hand.addCardToHand dealerHand (Shoe.drawn d))
          (mkTable (Shoe.shoe d) (Shoe.rng d) (input tb)
                   (trace tb ++ [DealerDrew (Shoe.drawn d)]))
    end
  else Some (dealerHand, tb).

(** [int determineWinner(hands, stats, numPlayers)]; the returned [0] is
    dropped. *)
Definition determineWinner (hands : list Hand.t) (stats : GameStats.t)
    (numPlayers : Z) : GameStats.t :=
  let dealerHand := back hands in
  let dealerBusted := isBusted dealerHand in
  let players := seq 0 (length hands - 1) in
  let stats :=
    if isBlackjack dealerHand then
      let stats := GameStats.incrDealerBlackjacks stats in
      let allPlayersNoBlackjack :=
        negb (existsb (λ playerHasBlackjack : bool, playerHasBlackjack)
                      (GameStats.playerBlackjack stats)) in
      if allPlayersNoBlackjack && negb dealerBusted
      then GameStats.incrDealerWins stats else stats
    else stats in
  let stats :=
    fold_left
      (λ (st : GameStats.t) (i : nat),
         if (GameStats.playerBlackjack st !!! i : bool) then
           if negb (isBlackjack dealerHand)
           then GameStats.incrBlackjacks i (GameStats.incrWins i st)
           else GameStats.incrTies i st
         else compareHands (hands !!! i) dealerHand st i)
      players stats in
  let stats :=
    if dealerBusted then
      fold_left
        (λ (st : GameStats.t) (i : nat),
           if negb (isBusted (hands !!! i))
              && negb (GameStats.playerBlackjack st !!! i : bool)
           then GameStats.incrWins i st else st)
        players (GameStats.incrDealerWins stats)
    else stats in
  GameStats.incrTotalRounds stats.

(** [void collectCards(std::vector<Hand> &hands, Shoe &deck)] *)
Definition collectCards (hands : list Hand.t) (deck : Shoe.t) (g : Rng.t)
  : list Hand.t * Shoe.t * Rng.t :=
  let hands' := map (λ hand, Hand.mk (Hand.owner hand) 0 (Hand.card hand)) hands in
  let deck0 := Shoe.mk (Shoe.cards deck) 0 in
  let '(deck', g') := Shoe.shuffleDecks deck0 g in
  (hands', deck', g').

(** What one call of [playRound] leaves behind. *)
Record Round : Type := mkRound {
  revealed : list Hand.t;    (* the hands shown by [printHands(hands, true)] *)
  drawnFrom : Shoe.t;        (* the shoe at that point *)
  hands : list Hand.t;       (* the local [hands] after [collectCards] *)
  stats : GameStats.t;
  table : Table
}.

(** [void playRound(Shoe &deck, int numPlayers, GameStats &stats)] *)
Definition playRound (fuel : nat) (deck : Shoe.t) (numPlayers : Z)
    (stats : GameStats.t) (g : Rng.t) (inp : list Decision) : option Round :=
  let hands := initializeGameHands numPlayers in
  let '(hands, deck, g) := dealCards hands deck g in
  let stats := checkBlackjack hands stats numPlayers in
  let endRoundEarly := shouldEndRoundEarly stats in
  let played :=
    if negb endRoundEarly then
      match playersTurns fuel hands (mkTable deck g inp []) with
      | None => None
      | Some (hands, tb) =>
          match dealerTurn fuel (back hands) tb with
          | None => None
          | Some (dealerHand, tb) =>
              Some (<[(length hands - 1)%nat := dealerHand]> hands, tb)
          end
      end
    else Some (hands, mkTable deck g inp []) in
  match played with
  | None => None
  | Some (hands, tb) =>
      let stats := determineWinner hands stats numPlayers in
      let '(hands', deck', g') := collectCards hands (Game.deck tb) (Game.rng tb) in
      Some (mkRound hands (Game.deck tb) hands' stats
                    (mkTable deck' g' (input tb) (trace tb)))
  end.

(** [main] up to the end of its first call of [playRound]: the shoe and
    the statistics are constructed, then a round is played. *)
Definition firstRound (fuel : nat) (g : Rng.t) (numPlayers : Z)
    (inp : list Decision) : option Round :=
  let '(deck, g) := Shoe.new g in
  let stats := GameStats.new numPlayers in
  playRound fuel deck numPlayers stats g inp.

End Game.

(** * Vocabulary of the properties *)

(** ** Hands *)

(** Value of a rank in [cardValues]; 0 for a rank that is not a key. *)
Definition value (r : string) : Z := default 0 (Hand.cardValues !! r).

(** A map that [operator[]] has grown still answers like [cardValues]. *)
Definition agrees (m : gmap string Z) : Prop :=
  ∀ k, default 0 (m !! k) = value k.

(** What the scoring loop accumulates over a sequence of slots. *)
Definition rawScore (cs : list Card) : Z :=
  foldr (λ card acc, value (rank card) + acc) 0 cs.

Definition aces (cs : list Card) : Z :=
  foldr (λ card acc, (if bool_decide (rank card = "A") then 1 else 0) + acc) 0 cs.

(** The hand of [ownerName] after [addCardToHand] was called with each
    card of [cs] in turn. *)
Definition dealt (ownerName : string) (cs : list Card) : Hand.t :=
  fold_left Hand.addCardToHand cs (Hand.new ownerName).

(** The cards a hand holds: its first [numCards] slots. *)
Definition held (h : Hand.t) : list Card :=
  take (Z.to_nat (Hand.numCards h)) (Hand.card h).

(** Representation invariant of a hand: the count is within the guard of
    [addCardToHand] and every slot from [numCards] on is a default card. *)
Record hand_wf (h : Hand.t) : Prop := {
  wf_count : 0 ≤ Hand.numCards h ≤ Hand.MAX_HAND_SIZE - 1;
  wf_length : length (Hand.card h) = Z.to_nat Hand.MAX_HAND_SIZE;
  wf_rest :
    drop (Z.to_nat (Hand.numCards h)) (Hand.card h)
    = replicate (Z.to_nat (Hand.MAX_HAND_SIZE - Hand.numCards h)) emptyCard
}.

Definition hearts (ranks : list string) : list Card :=
  map (λ r, mkCard r "♥") ranks.

(** ** The reference score

    Written after the description of [score()]: sum the per-rank values,
    every Ace at 11; then, while the total exceeds 21 and an Ace is still
    counted as 11, count one such Ace as 1. *)

Module ScoreRef.

(** Number cards at face value, T/J/Q/K as 10, Ace as 11. *)
Definition rankValue (r : string) : Z :=
  if bool_decide (r = "A") then 11
  else if bool_decide (r ∈ ["T"; "J"; "Q"; "K"]) then 10
  else match r with
       | String d EmptyString =>
           let n := Z.of_nat (Ascii.nat_of_ascii d) - 48 in
           if bool_decide (2 ≤ n ≤ 9) then n else 0
       | _ => 0
       end.

Definition isAce (card : Card) : bool := bool_decide (rank card = "A").

(** Every card with the value it is counted at: at first its rank value. *)
Definition initialCount (cs : list Card) : list (Card * Z) :=
  map (λ card, (card, rankValue (rank card))) cs.

Definition total (l : list (Card * Z)) : Z :=
  foldr (λ p acc, p.2 + acc) 0 l.

(** Count one Ace that is still counted as 11 as 1, if there is one. *)
Fixpoint downgradeOne (l : list (Card * Z)) : option (list (Card * Z)) :=
  match l with
  | [] => None
  | (card, v) :: l' =>
      if isAce card && bool_decide (v = 11) then Some ((card, v - 10) :: l')
      else cons (card, v) <$> downgradeOne l'
  end.

(** Repeat while the total exceeds 21 and such an Ace remains; [n] bounds
    the number of rounds, and a hand of [n] cards needs at most [n]. *)
Fixpoint settle (n : nat) (l : list (Card * Z)) : list (Card * Z) :=
  match n with
  | O => l
  | S n' =>
      if bool_decide (total l > 21) then
        match downgradeOne l with
        | Some l' => settle n' l'
        | None => l
        end
      else l
  end.

Definition score (cs : list Card) : Z :=
  total (settle (length cs) (initialCount cs)).

(** Number of Aces still counted as 11. *)
Definition highAces (l : list (Card * Z)) : nat :=
  foldr (λ p acc, if isAce p.1 && bool_decide (p.2 = 11) then S acc else acc) O l.

End ScoreRef.

(** ** Shoes *)

(** The array of a shoe has its declared length. *)
Definition shoe_wf (s : Shoe.t) : Prop :=
  length (Shoe.cards s) = Z.to_nat Shoe.SIZE.

(** A card as [initializeDecks] makes them. *)
Definition nonEmpty (card : Card) : Prop := rank card ≠ "" ∧ suit card ≠ "".

(** A shoe as the program keeps it. *)
Record shoe_ok (s : Shoe.t) : Prop := {
  so_length : length (Shoe.cards s) = Z.to_nat Shoe.SIZE;
  so_cursor : 0 ≤ Shoe.currentCard s ≤ Shoe.SIZE;
  so_cards : Forall nonEmpty (Shoe.cards s)
}.

#[global] Instance nonEmpty_dec (card : Card) : Decision (nonEmpty card).
Proof. unfold nonEmpty. apply _. Defined.

(** [n] successive calls of [drawCardFromShoe]. *)
Fixpoint draws (n : nat) (s : Shoe.t) (g : Rng.t) : list Shoe.Drawn :=
  match n with
  | O => []
  | S n' =>
      let d := Shoe.drawCardFromShoe s g in
      d :: draws n' (Shoe.shoe d) (Shoe.rng d)
  end.

(** The shoe and generator after [n] draws. *)
Definition afterDraws (n : nat) (s : Shoe.t) (g : Rng.t) : Shoe.t * Rng.t :=
  match last (draws n s g) with
  | Some d => (Shoe.shoe d, Shoe.rng d)
  | None => (s, g)
  end.

(** What one draw guarantees; [p] stands for the shoe and generator as
    [shuffleDecks] leaves them. *)
Record draw_ok (s : Shoe.t) (g : Rng.t) (p : Shoe.t * Rng.t) (d : Shoe.Drawn)
  : Prop := {
  ok_branch : Shoe.branch d ≠ Shoe.Exhausted;
  ok_index : 0 ≤ Shoe.readAt d < Shoe.SIZE;
  ok_inbounds :
    Shoe.cards (Shoe.shoe d) !! Z.to_nat (Shoe.readAt d) = Some (Shoe.drawn d);
  ok_advance : Shoe.currentCard (Shoe.shoe d) = Shoe.readAt d + 1;
  ok_cursor :
    1 ≤ Shoe.currentCard (Shoe.shoe d) ≤ Shoe.SIZE - RESHUFFLE_THRESHOLD;
  ok_length : length (Shoe.cards (Shoe.shoe d)) = Z.to_nat Shoe.SIZE;
  ok_reshuffle :
    Shoe.currentCard s >= Shoe.SIZE - RESHUFFLE_THRESHOLD →
    Shoe.branch d = Shoe.Reshuffled ∧ Shoe.readAt d = 0
    ∧ Shoe.cards (Shoe.shoe d) = Shoe.cards p.1 ∧ Shoe.rng d = p.2;
  ok_next :
    Shoe.currentCard s < Shoe.SIZE - RESHUFFLE_THRESHOLD →
    Shoe.branch d = Shoe.NextCard ∧ Shoe.readAt d = Shoe.currentCard s
    ∧ Shoe.cards (Shoe.shoe d) = Shoe.cards s ∧ Shoe.rng d = g
}.

(** A generator whose first values are listed and whose [n]-th value is
    [n] afterwards.  A pass of [shuffleDecks] that starts at a multiple of
    312 and reads only values of the second kind swaps every card with
    itself. *)
Definition riggedRng (l : list N) : Rng.t :=
  Rng.mk (λ n, nth n l (N.of_nat n)) 0.

(** The first shuffle leaves the deck in the order of [initializeDecks]. *)
Definition identityRng : Rng.t := riggedRng [].

(** ** Rounds *)

(** One pass of the body of the dealer's loop. *)
Definition dealerStep (st : Hand.t * Game.Table) : Hand.t * Game.Table :=
  let d := Shoe.drawCardFromShoe (Game.deck st.2) (Game.rng st.2) in
  (Hand.addCardToHand st.1 (Shoe.drawn d),
   Game.mkTable (Shoe.shoe d) (Shoe.rng d) (Game.input st.2)
                (Game.trace st.2 ++ [Game.DealerDrew (Shoe.drawn d)])).

(** The dealer scores below [DEALER_STAND] before each of [k] passes, and
    after them holds [MAX_HAND_SIZE - 1] cards and still scores below it. *)
Fixpoint stuckAfter (k : nat) (st : Hand.t * Game.Table) : bool :=
  match k with
  | O => bool_decide (Hand.numCards st.1 = Hand.MAX_HAND_SIZE - 1)
         && bool_decide (Hand.evaluateHandScore st.1 < DEALER_STAND)
  | S k' => bool_decide (Hand.evaluateHandScore st.1 < DEALER_STAND)
            && stuckAfter k' (dealerStep st)
  end.

(** [main] up to the start of the dealer's loop in the first round. *)
Definition dealerStart (g : Rng.t) (numPlayers : Z) (inp : list Game.Decision)
  : option (list Hand.t * Game.Table) :=
  let '(deck, g) := Shoe.new g in
  let '(hands, deck, g) :=
    Game.dealCards (Game.initializeGameHands numPlayers) deck g in
  Game.playersTurns 0 hands (Game.mkTable deck g inp []).

(** The flag vector with its first [k] entries recomputed from the hands. *)
Definition flagsAfter (hands : list Hand.t) (k : nat) (fl : list bool) : list bool :=
  fold_left (λ fl i, <[i := Game.isBlackjack (hands !!! i)]> fl) (seq 0 k) fl.

Definition isAsked (e : Game.Event) : bool :=
  match e with Game.Asked _ _ => true | Game.DealerDrew _ => false end.

(** What the players' turns leave as they found it: the owners, the
    dealer's hand, and a trace without dealer draws. *)
Definition turns_inv (hands : list Hand.t)
    (st : option (list Hand.t * Game.Table)) : Prop :=
  match st with
  | None => True
  | Some (hands', tb') =>
      Hand.owner <$> hands' = Hand.owner <$> hands
      ∧ Game.back hands' = Game.back hands
      ∧ forallb isAsked (Game.trace tb') = true
  end.

(** ** The ledger, player by player *)

(** Player [i]'s outcome counters and pre-round flag. *)
Definition view (st : GameStats.t) (i : nat) : Z * Z * Z * bool :=
  (GameStats.playerWins st !!! i, GameStats.playerLosses st !!! i,
   GameStats.playerTies st !!! i, GameStats.playerBlackjack st !!! i).

(** The vectors of the ledger have an entry for player [i]. *)
Definition sized (i : nat) (st : GameStats.t) : Prop :=
  (i < length (GameStats.playerWins st))%nat
  ∧ (i < length (GameStats.playerLosses st))%nat
  ∧ (i < length (GameStats.playerTies st))%nat
  ∧ (i < length (GameStats.playerBlackjack st))%nat.

(** Exactly one of wins, losses, ties went up, and by exactly 1. *)
Definition oneOutcome (before after : Z * Z * Z * bool) : Prop :=
  let '(w, l, t, _) := before in
  let '(w', l', t', _) := after in
  (w' = w + 1 ∧ l' = l ∧ t' = t)
  ∨ (w' = w ∧ l' = l + 1 ∧ t' = t)
  ∨ (w' = w ∧ l' = l ∧ t' = t + 1).

(** The outcomes counted for a player so far. *)
Definition tally (v : Z * Z * Z * bool) : Z := v.1.1.1 + v.1.1.2 + v.1.2.

(** Player [i]'s entry after [checkBlackjack]. *)
Definition checked (hands : list Hand.t) (i : nat) (v : Z * Z * Z * bool)
  : Z * Z * Z * bool :=
  let '(w, l, t, _) := v in
  let b := Game.isBlackjack (hands !!! i) in
  if Game.isBlackjack (Game.back hands) then
    if b then (w, l, t + 1, b) else (w, l + 1, t, b)
  else (w, l, t, b).

(** Player [i]'s entry after the settlement loop of [determineWinner]
    has passed index [i]. *)
Definition settled (hands : list Hand.t) (i : nat) (v : Z * Z * Z * bool)
  : Z * Z * Z * bool :=
  let '(w, l, t, fl) := v in
  let p := hands !!! i in
  let d := Game.back hands in
  let ps := Hand.evaluateHandScore p in
  let ds := Hand.evaluateHandScore d in
  if fl then
    if negb (Game.isBlackjack d) then (w + 1, l, t, fl) else (w, l, t + 1, fl)
  else if Game.isBusted p then (w, l + 1, t, fl)
  else if Game.isBlackjack p && negb (Game.isBlackjack d) then (w + 1, l, t, fl)
  else if bool_decide (ds > ps) && negb (Game.isBusted d) then (w, l + 1, t, fl)
  else if bool_decide (ps > ds) then (w + 1, l, t, fl)
  else if bool_decide (ps = ds) then (w, l, t + 1, fl)
  else v.

(** ... and after the loop that follows a dealer's bust. *)
Definition credited (hands : list Hand.t) (i : nat) (v : Z * Z * Z * bool)
  : Z * Z * Z * bool :=
  let '(w, l, t, fl) := v in
  if negb (Game.isBusted (hands !!! i)) && negb fl then (w + 1, l, t, fl) else v.

(** A hand at the reveal against the hand as dealt: a natural was not
    touched, any other hand is as dealt or holds more cards. *)
Definition grown (h h' : Hand.t) : Prop :=
  (Game.isBlackjack h = true → h' = h)
  ∧ (h' = h ∨ Hand.numCards h < Hand.numCards h').

Definition turns_grow (hands : list Hand.t)
    (st : option (list Hand.t * Game.Table)) : Prop :=
  match st with
  | None => True
  | Some (hands', tb') =>
      shoe_ok (Game.deck tb')
      ∧ length hands' = length hands
      ∧ ∀ j : nat, grown (hands !!! j) (hands' !!! j)
  end.

Definition noTable : Game.Table :=
  Game.mkTable (Shoe.mk [] 0) identityRng [] [].

(** The round a call of [playRound] returned. *)
Definition roundOf (o : option Game.Round) : Game.Round :=
  default (Game.mkRound [] (Shoe.mk [] 0) [] (GameStats.new 0) noTable) o.

(** ** Concrete games

    Each generator lists the values [rand()] returns during the first
    shuffle; with index [i] swapped with index [rand() % 312] the listed
    values bring the wanted cards to the top of the shoe. *)

(** Top of the shoe: T A 9 K.  One player gets T 9, the dealer A K. *)
Definition naturalRng : Rng.t := riggedRng [4; 4; 5; 4]%N.

(** Top of the shoe: A T A K 9 K.  Player 1 gets A K, player 2 gets T 9,
    the dealer A K. *)
Definition twoNaturalsRng : Rng.t := riggedRng [0; 4; 13; 4; 5; 14]%N.

(** Top of the shoe: K T Q 9.  One player gets K Q, the dealer T 9. *)
Definition plainRng : Rng.t := riggedRng [1; 4; 2; 5]%N.

(** Top of the shoe: K 2 Q 2 2 2 2 2 A A A A.  One player gets K Q, the
    dealer 2 2 and then draws 2 2 2 2 A A A A. *)
Definition stuckRng : Rng.t :=
  riggedRng [1; 12; 2; 25; 38; 51; 64; 77; 13; 26; 39; 52]%N.

Definition stuckStart : list Hand.t * Game.Table :=
  default ([], noTable) (dealerStart stuckRng 1 [Game.Stand]).

(** Ten cards: the most [addCardToHand] lets a hand hold. *)
Definition tenCards : list Card :=
  hearts ["2"; "2"; "2"; "2"; "A"; "A"; "A"; "A"; "3"; "3"].

(** * Hands *)

(** ** The loop of [adjustScoreForAces] has fuel enough *)

Lemma adjustLoop_fuel (fuel : nat) : ∀ score aceCount,
  (Z.to_nat aceCount ≤ fuel)%nat →
  Hand.adjustLoop fuel score aceCount
  = Hand.adjustLoop (Z.to_nat aceCount) score aceCount.
Proof.
  induction fuel as [|fuel IH]; intros score aceCount Hf.
  - by replace (Z.to_nat aceCount) with O by lia.
  - destruct (Z.to_nat aceCount) as [|k] eqn:Hk.
    + cbn [Hand.adjustLoop].
      rewrite (bool_decide_eq_false_2 (aceCount > 0)) by lia.
      by rewrite andb_false_r.
    + cbn [Hand.adjustLoop]. destruct (_ && _); [|reflexivity].
      rewrite IH by lia. f_equal. lia.
Qed.

(** ** [addCardToHand] *)

Lemma addCardToHand_appends (h : Hand.t) (card : Card) :
  Hand.numCards h < Hand.MAX_HAND_SIZE - 1 → rank card ≠ "" → suit card ≠ "" →
  Hand.addCardToHand h card
  = Hand.mk (Hand.owner h) (Hand.numCards h + 1)
            (<[Z.to_nat (Hand.numCards h) := card]> (Hand.card h)).
Proof.
  intros Hn Hr Hs. unfold Hand.addCardToHand.
  by rewrite !bool_decide_eq_true_2.
Qed.

Lemma addCardToHand_full (h : Hand.t) (card : Card) :
  Hand.MAX_HAND_SIZE - 1 ≤ Hand.numCards h → Hand.addCardToHand h card = h.
Proof.
  intros H. unfold Hand.addCardToHand.
  rewrite bool_decide_eq_false_2 by lia. reflexivity.
Qed.

Lemma addCardToHand_owner (h : Hand.t) (card : Card) :
  Hand.owner (Hand.addCardToHand h card) = Hand.owner h.
Proof. unfold Hand.addCardToHand. by destruct (_ && _). Qed.

Lemma addCardToHand_mono (h : Hand.t) (card : Card) :
  Hand.numCards h ≤ Hand.numCards (Hand.addCardToHand h card).
Proof. unfold Hand.addCardToHand. destruct (_ && _); simpl; lia. Qed.

Lemma addCardToHand_grows (h : Hand.t) (card : Card) :
  nonEmpty card → Hand.numCards h < Hand.MAX_HAND_SIZE - 1 →
  Hand.numCards (Hand.addCardToHand h card) = Hand.numCards h + 1.
Proof.
  intros [Hr Hs] Hn. by rewrite addCardToHand_appends.
Qed.

Lemma new_wf (ownerName : string) : hand_wf (Hand.new ownerName).
Proof. split; vm_compute; try done; split; discriminate. Qed.

Lemma addCardToHand_wf (h : Hand.t) (card : Card) :
  hand_wf h → hand_wf (Hand.addCardToHand h card).
Proof.
  intros [Hc Hl Hr]. unfold Hand.addCardToHand.
  repeat case_bool_decide; simpl; try (by split).
  unfold Hand.MAX_HAND_SIZE in *.
  split; simpl; unfold Hand.MAX_HAND_SIZE.
  - lia.
  - by rewrite length_insert.
  - replace (Z.to_nat (Hand.numCards h + 1))
      with (Z.to_nat (Hand.numCards h) + 1)%nat by lia.
    rewrite drop_insert_lt by lia.
    rewrite <- drop_drop, Hr, drop_replicate. f_equal. lia.
Qed.

Lemma dealt_wf (ownerName : string) (cs : list Card) : hand_wf (dealt ownerName cs).
Proof.
  unfold dealt. generalize (new_wf ownerName). generalize (Hand.new ownerName).
  induction cs as [|card cs IH]; intros h Hh; simpl; [done|].
  apply IH. by apply addCardToHand_wf.
Qed.

Lemma wf_slot (h : Hand.t) (i : nat) :
  hand_wf h → Hand.numCards h ≤ Z.of_nat i < Hand.MAX_HAND_SIZE →
  Hand.card h !! i = Some emptyCard.
Proof.
  intros [Hc Hl Hr] Hi. unfold Hand.MAX_HAND_SIZE in *.
  replace i with (Z.to_nat (Hand.numCards h) + (i - Z.to_nat (Hand.numCards h)))%nat
    by lia.
  rewrite <- lookup_drop, Hr. apply lookup_replicate_2. lia.
Qed.

Lemma wf_card_split (h : Hand.t) :
  hand_wf h →
  Hand.card h
  = held h ++ replicate (Z.to_nat (Hand.MAX_HAND_SIZE - Hand.numCards h)) emptyCard.
Proof. intros [Hc Hl Hr]. unfold held. rewrite <- Hr. by rewrite take_drop. Qed.

(** No sequence of calls of [addCardToHand] gives a hand more than ten
    cards. *)
Lemma dealt_at_most_ten (ownerName : string) (cs : list Card) :
  0 ≤ Hand.numCards (dealt ownerName cs) ≤ 10.
Proof. destruct (dealt_wf ownerName cs) as [Hc _ _]. exact Hc. Qed.

(** C4 (as the code has it).  A hand that holds ten cards, built by ten
    calls of [addCardToHand], is left unchanged by the next call with a
    card of non-empty rank and suit: [numCards] stays 10 although it is
    below 11, and slot 10 of the array is never written. *)
Theorem addCardToHand_drops_eleventh_card :
  let h := dealt "Player 1" tenCards in
  let card := mkCard "3" "♥" in
  Hand.numCards h = 10
  ∧ Hand.numCards h < 11
  ∧ rank card ≠ "" ∧ suit card ≠ ""
  ∧ Hand.addCardToHand h card = h
  ∧ Hand.numCards (Hand.addCardToHand h card) = 10
  ∧ Hand.card (Hand.addCardToHand h card) !! 10%nat = Some emptyCard.
Proof. vm_compute. repeat split; discriminate. Qed.

(** ** The scoring loop *)

Lemma map_index_agrees (m : gmap string Z) (k : string) :
  agrees m → (Hand.map_index m k).1 = value k ∧ agrees (Hand.map_index m k).2.
Proof.
  intros Hm. unfold Hand.map_index.
  destruct (m !! k) as [v|] eqn:E; simpl.
  - split; [|done]. by rewrite <- Hm, E.
  - split; [by rewrite <- Hm, E|].
    intros k'. destruct (decide (k = k')) as [->|Hne].
    + rewrite lookup_insert_eq. simpl. by rewrite <- Hm, E.
    + rewrite lookup_insert_ne by done. apply Hm.
Qed.

Lemma scan_fold (cs : list Card) : ∀ score aceCount m,
  agrees m →
  ∃ m', agrees m' ∧
    fold_left Hand.scanStep cs (score, aceCount, m)
    = (score + rawScore cs, aceCount + aces cs, m').
Proof.
  induction cs as [|card cs IH]; intros score aceCount m Hm; simpl.
  - exists m. split; [done|]. f_equal; f_equal; lia.
  - destruct (map_index_agrees m (rank card) Hm) as [Hv Hm'].
    destruct (Hand.map_index m (rank card)) as [v m1]; simpl in *. subst v.
    destruct (IH (score + value (rank card))
      (if bool_decide (rank card = "A") then aceCount + 1 else aceCount) m1 Hm')
      as (m' & Hag & ->).
    exists m'. split; [done|].
    case_bool_decide; (f_equal; f_equal; lia).
Qed.

Lemma evaluateHandScore_eq (h : Hand.t) :
  Hand.evaluateHandScore h
  = Hand.adjustScoreForAces (rawScore (Hand.card h)) (aces (Hand.card h)).
Proof.
  unfold Hand.evaluateHandScore, Hand.scanCards.
  destruct (scan_fold (Hand.card h) 0 0 Hand.cardValues) as (m' & _ & ->); done.
Qed.

Lemma rawScore_app (cs ds : list Card) : rawScore (cs ++ ds) = rawScore cs + rawScore ds.
Proof. induction cs as [|card cs IH]; simpl; [done|]. rewrite IH. lia. Qed.

Lemma aces_app (cs ds : list Card) : aces (cs ++ ds) = aces cs + aces ds.
Proof. induction cs as [|card cs IH]; simpl; [done|]. rewrite IH. lia. Qed.

Lemma rawScore_empty (n : nat) : rawScore (replicate n emptyCard) = 0.
Proof. induction n as [|n IH]; simpl; [done|]. by rewrite IH. Qed.

Lemma aces_empty (n : nat) : aces (replicate n emptyCard) = 0.
Proof. induction n as [|n IH]; simpl; [done|]. by rewrite IH. Qed.

Lemma wf_score_held (h : Hand.t) :
  hand_wf h →
  Hand.evaluateHandScore h
  = Hand.adjustScoreForAces (rawScore (held h)) (aces (held h)).
Proof.
  intros Hwf. rewrite evaluateHandScore_eq.
  rewrite (wf_card_split h Hwf) at 1 2.
  rewrite rawScore_app, aces_app, rawScore_empty, aces_empty.
  by rewrite !Z.add_0_r.
Qed.

(** C10.  In every hand built from a freshly constructed [Hand] by calls
    of [addCardToHand], every slot at an index from [numCards] on holds
    the card with empty rank and empty suit; so [evaluateHandScore],
    which scans all eleven slots, returns what the Ace adjustment makes
    of the values and the Aces of the first [numCards] cards alone. *)
Theorem dealt_hand_slots_empty (ownerName : string) (cs : list Card) :
  let h := dealt ownerName cs in
  (∀ i : nat, Hand.numCards h ≤ Z.of_nat i < Hand.MAX_HAND_SIZE →
     Hand.card h !! i = Some (mkCard "" ""))
  ∧ Hand.evaluateHandScore h
    = Hand.adjustScoreForAces (rawScore (held h)) (aces (held h)).
Proof.
  intros h. pose proof (dealt_wf ownerName cs) as Hwf. split.
  - intros i Hi. by apply wf_slot.
  - by apply wf_score_held.
Qed.

(** ** The score against its reference *)

Lemma value_rankValue (r : string) : value r = ScoreRef.rankValue r.
Proof.
  unfold value, ScoreRef.rankValue.
  destruct (Hand.cardValues !! r) as [v|] eqn:E.
  - apply elem_of_list_to_map_2 in E.
    repeat (apply elem_of_cons in E as [E|E];
            [injection E as -> ->; vm_compute; done|]).
    by apply elem_of_nil in E.
  - apply not_elem_of_list_to_map_2 in E. simpl in E.
    repeat (apply not_elem_of_cons in E as [? E]).
    rewrite bool_decide_eq_false_2 by done.
    rewrite bool_decide_eq_false_2.
    2:{ intros Hin. repeat (apply elem_of_cons in Hin as [Hin|Hin]; [done|]).
        by apply elem_of_nil in Hin. }
    destruct r as [|d [|? ?]]; simpl; try done.
    destruct d as [[] [] [] [] [] [] [] []]; vm_compute; done.
Qed.

Lemma downgradeOne_none (l : list (Card * Z)) :
  ScoreRef.highAces l = O → ScoreRef.downgradeOne l = None.
Proof.
  induction l as [|[card v] l IH]; simpl; [done|].
  destruct (ScoreRef.isAce card && bool_decide (v = 11)); [done|].
  intros H. by rewrite IH.
Qed.

Lemma downgradeOne_some (l : list (Card * Z)) (k : nat) :
  ScoreRef.highAces l = S k →
  ∃ l', ScoreRef.downgradeOne l = Some l'
        ∧ ScoreRef.total l' = ScoreRef.total l - 10
        ∧ ScoreRef.highAces l' = k.
Proof.
  induction l as [|[card v] l IH]; simpl; [done|].
  destruct (ScoreRef.isAce card && bool_decide (v = 11)) eqn:E.
  - intros [= Hk]. eexists. split; [done|]. simpl.
    apply andb_true_iff in E as [_ Hv]. apply bool_decide_eq_true in Hv. subst v.
    simpl. split; [lia|]. by rewrite andb_false_r.
  - intros Hk. destruct (IH Hk) as (l' & -> & Ht & Hh).
    eexists. split; [done|]. simpl. rewrite E. split; [lia|done].
Qed.

(** The reference stops for the reason its description gives, not for
    lack of rounds: the total is at most 21 or no Ace is counted as 11. *)
Lemma settle_done (n : nat) : ∀ l,
  (ScoreRef.highAces l ≤ n)%nat →
  ScoreRef.total (ScoreRef.settle n l) ≤ 21
  ∨ ScoreRef.highAces (ScoreRef.settle n l) = O.
Proof.
  induction n as [|n IH]; intros l Hn; cbn [ScoreRef.settle].
  - right. lia.
  - case_bool_decide as Ht; [|left; lia].
    destruct (ScoreRef.highAces l) as [|k] eqn:Hk.
    + rewrite (downgradeOne_none l Hk). by right.
    + destruct (downgradeOne_some l k Hk) as (l' & -> & _ & Hh).
      apply IH. lia.
Qed.

(** The integer loop of the code and the reference's re-counting agree:
    the code's [score] is the reference's total, its [aceCount] the
    number of Aces still counted as 11. *)
Lemma settle_adjustLoop (n : nat) : ∀ l,
  (ScoreRef.highAces l ≤ n)%nat →
  ScoreRef.total (ScoreRef.settle n l)
  = Hand.adjustLoop (ScoreRef.highAces l) (ScoreRef.total l)
                    (Z.of_nat (ScoreRef.highAces l)).
Proof.
  induction n as [|n IH]; intros l Hn.
  - replace (ScoreRef.highAces l) with O by lia. done.
  - cbn [ScoreRef.settle]. destruct (ScoreRef.highAces l) as [|k] eqn:Hk.
    + rewrite (downgradeOne_none l Hk). by case_bool_decide.
    + cbn [Hand.adjustLoop]. unfold BLACKJACK, ACE_HIGH, ACE_LOW.
      rewrite (bool_decide_eq_true_2 (Z.of_nat (S k) > 0)) by lia.
      rewrite andb_true_r.
      case_bool_decide; [|done].
      destruct (downgradeOne_some l k Hk) as (l' & -> & Ht & Hh).
      rewrite IH by lia. rewrite Hh, Ht. f_equal; lia.
Qed.

Lemma total_initialCount (cs : list Card) :
  ScoreRef.total (ScoreRef.initialCount cs) = rawScore cs.
Proof.
  induction cs as [|card cs IH]; simpl; [done|].
  by rewrite IH, value_rankValue.
Qed.

Lemma highAces_initialCount (cs : list Card) :
  Z.of_nat (ScoreRef.highAces (ScoreRef.initialCount cs)) = aces cs
  ∧ (ScoreRef.highAces (ScoreRef.initialCount cs) ≤ length cs)%nat.
Proof.
  induction cs as [|card cs [IH1 IH2]]; simpl; [done|].
  unfold ScoreRef.isAce. case_bool_decide as Hr; simpl.
  - rewrite Hr. simpl. split; lia.
  - split; lia.
Qed.

Lemma adjustScoreForAces_ref (cs : list Card) :
  Hand.adjustScoreForAces (rawScore cs) (aces cs) = ScoreRef.score cs.
Proof.
  unfold ScoreRef.score, Hand.adjustScoreForAces.
  destruct (highAces_initialCount cs) as [Ha Hl].
  rewrite settle_adjustLoop by done.
  rewrite total_initialCount, Ha, <- Ha, Nat2Z.id. done.
Qed.

(** C5.  For every hand, [evaluateHandScore] equals the reference
    computation (per-rank values summed with every Ace at 11, then one
    Ace after the other counted as 1 while the total exceeds 21) over the
    eleven slots of the array; for every hand built by the constructor
    and [addCardToHand] that is the reference computation over the cards
    the hand holds.  A hand of two Aces scores 12; five Aces score 15;
    A A A A 2 2 2 2 3 3 3 scores 21 with all four Aces counted as 1. *)
Theorem evaluateHandScore_refines_reference :
  (∀ h : Hand.t, Hand.evaluateHandScore h = ScoreRef.score (Hand.card h))
  ∧ (∀ (ownerName : string) (cs : list Card),
       let h := dealt ownerName cs in
       Hand.evaluateHandScore h = ScoreRef.score (held h))
  ∧ Hand.evaluateHandScore (dealt "Player 1" (hearts ["A"; "A"])) = 12
  ∧ Hand.evaluateHandScore (dealt "Dealer" (hearts ["A"; "A"; "A"; "A"; "A"])) = 15
  ∧ Hand.evaluateHandScore
      (Hand.mk "Player 1" 11
         (hearts ["A"; "A"; "A"; "A"; "2"; "2"; "2"; "2"; "3"; "3"; "3"])) = 21.
Proof.
  split; [|split].
  - intros h. by rewrite evaluateHandScore_eq, adjustScoreForAces_ref.
  - intros o cs h. rewrite (wf_score_held h (dealt_wf o cs)).
    apply adjustScoreForAces_ref.
  - vm_compute. done.
Qed.

(** * The shoe *)

(** ** [shuffleDecks] *)

Lemma count_occ_insert (l : list Card) (i : nat) (y x : Card) :
  (i < length l)%nat →
  (count_occ Card_eq_dec (<[i := y]> l) x
   + (if decide (l !!! i = x) then 1 else 0)
   = count_occ Card_eq_dec l x + (if decide (y = x) then 1 else 0))%nat.
Proof.
  revert i. induction l as [|a l IH]; intros i Hi; simpl in *; [lia|].
  destruct i as [|i]; simpl.
  - change (Card_eq_dec y x) with (decide (y = x)).
    change (Card_eq_dec a x) with (decide (a = x)).
    repeat case_decide; lia.
  - specialize (IH i ltac:(lia)).
    change (Card_eq_dec a x) with (decide (a = x)).
    change ((a :: l) !!! S i) with (l !!! i).
    repeat case_decide; lia.
Qed.

Lemma swap_Permutation (cs : list Card) (i j : Z) :
  0 ≤ i < Z.of_nat (length cs) → 0 ≤ j < Z.of_nat (length cs) →
  Shoe.swap cs i j ≡ₚ cs.
Proof.
  intros Hi Hj. unfold Shoe.swap.
  apply (Permutation_count_occ Card_eq_dec). intros x.
  pose proof (count_occ_insert cs (Z.to_nat i) (cs !!! Z.to_nat j) x ltac:(lia)) as H1.
  pose proof (count_occ_insert (<[Z.to_nat i := cs !!! Z.to_nat j]> cs)
                (Z.to_nat j) (cs !!! Z.to_nat i) x
                ltac:(rewrite length_insert; lia)) as H2.
  assert (Hj' : <[Z.to_nat i := cs !!! Z.to_nat j]> cs !!! Z.to_nat j
                = cs !!! Z.to_nat j).
  { destruct (decide (Z.to_nat i = Z.to_nat j)) as [->|Hne].
    - apply list_lookup_total_insert_eq. lia.
    - by apply list_lookup_total_insert_ne. }
  rewrite Hj' in H2. lia.
Qed.

Lemma swap_length (cs : list Card) (i j : Z) : length (Shoe.swap cs i j) = length cs.
Proof. unfold Shoe.swap. by rewrite !length_insert. Qed.

Lemma randomIndex_range (r : N) : 0 ≤ Z.rem (Z.of_N r) Shoe.SIZE < Shoe.SIZE.
Proof.
  assert (HS : Shoe.SIZE = 312) by done. rewrite HS.
  rewrite Z.rem_mod_nonneg by lia.
  pose proof (Z.mod_pos_bound (Z.of_N r) 312 ltac:(lia)). lia.
Qed.

Lemma shuffleLoop_Permutation (n : nat) : ∀ i cs g,
  0 ≤ i → i + Z.of_nat n ≤ Z.of_nat (length cs) →
  length cs = Z.to_nat Shoe.SIZE →
  (Shoe.shuffleLoop n i cs g).1 ≡ₚ cs.
Proof.
  induction n as [|n IH]; intros i cs g Hi Hn Hl; simpl; [done|].
  pose proof (randomIndex_range (Rng.stream g (Rng.pos g))) as Hr.
  rewrite IH.
  - apply swap_Permutation; lia.
  - lia.
  - rewrite swap_length. lia.
  - by rewrite swap_length.
Qed.

Lemma shuffleLoop_length (n : nat) : ∀ i cs g,
  length (Shoe.shuffleLoop n i cs g).1 = length cs.
Proof.
  induction n as [|n IH]; intros i cs g; simpl; [done|].
  by rewrite IH, swap_length.
Qed.

Lemma shuffleDecks_cards (s : Shoe.t) (g : Rng.t) :
  Shoe.cards (Shoe.shuffleDecks s g).1
  = (Shoe.shuffleLoop (Z.to_nat Shoe.SIZE) 0 (Shoe.cards s) g).1.
Proof. unfold Shoe.shuffleDecks. by destruct (Shoe.shuffleLoop _ _ _ _). Qed.

Lemma shuffleDecks_currentCard (s : Shoe.t) (g : Rng.t) :
  Shoe.currentCard (Shoe.shuffleDecks s g).1 = Shoe.currentCard s.
Proof. unfold Shoe.shuffleDecks. by destruct (Shoe.shuffleLoop _ _ _ _). Qed.

Lemma shuffleDecks_wf (s : Shoe.t) (g : Rng.t) :
  shoe_wf s → shoe_wf (Shoe.shuffleDecks s g).1.
Proof.
  unfold shoe_wf. intros H. by rewrite shuffleDecks_cards, shuffleLoop_length.
Qed.

Lemma drawCardFromShoe_unfold (s : Shoe.t) (g : Rng.t) :
  Shoe.drawCardFromShoe s g
  = if bool_decide (Shoe.currentCard s >= Shoe.SIZE - RESHUFFLE_THRESHOLD) then
      Shoe.takeNext (Shoe.mk (Shoe.cards (Shoe.shuffleDecks s g).1) 0)
                    (Shoe.shuffleDecks s g).2 Shoe.Reshuffled
    else if bool_decide (Shoe.currentCard s < Shoe.SIZE) then
      Shoe.takeNext s g Shoe.NextCard
    else
      Shoe.takeNext (Shoe.mk (Shoe.cards (Shoe.shuffleDecks s g).1) 0)
                    (Shoe.shuffleDecks s g).2 Shoe.Exhausted.
Proof. unfold Shoe.drawCardFromShoe. by destruct (Shoe.shuffleDecks s g). Qed.

(** C9.  For every shoe whose array holds its 312 cards and every stream
    of values of [rand()], the cards after [shuffleDecks] are a
    permutation of the cards before it. *)
Theorem shuffleDecks_permutes (s : Shoe.t) (g : Rng.t) :
  length (Shoe.cards s) = 312%nat →
  Shoe.cards (Shoe.shuffleDecks s g).1 ≡ₚ Shoe.cards s.
Proof.
  intros Hl. rewrite shuffleDecks_cards.
  apply shuffleLoop_Permutation; [lia| |done].
  rewrite Hl. change (Z.to_nat Shoe.SIZE) with 312%nat. lia.
Qed.

Lemma shuffleDecks_permutes_witness :
  Shoe.cards (Shoe.shuffleDecks (Shoe.new naturalRng).1 (Shoe.new naturalRng).2).1
  ≡ₚ Shoe.cards (Shoe.new naturalRng).1.
Proof. apply shuffleDecks_permutes. vm_compute. reflexivity. Defined.

(** C8 (as the code has it).  [shuffleDecks] leaves the draw cursor as it
    found it.  The cursor is set to 0 by the callers: the constructor
    before the call, [drawCardFromShoe] right after it (and the draw then
    advances it to 1). *)
Theorem shuffleDecks_keeps_cursor (s : Shoe.t) (g : Rng.t) :
  Shoe.currentCard (Shoe.shuffleDecks s g).1 = Shoe.currentCard s
  ∧ Shoe.currentCard (Shoe.new g).1 = 0
  ∧ (Shoe.branch (Shoe.drawCardFromShoe s g) = Shoe.Reshuffled →
     Shoe.currentCard (Shoe.shoe (Shoe.drawCardFromShoe s g)) = 1).
Proof.
  split; [apply shuffleDecks_currentCard|]. split.
  - unfold Shoe.new. by rewrite shuffleDecks_currentCard.
  - rewrite drawCardFromShoe_unfold.
    repeat case_bool_decide;
      cbn [Shoe.takeNext Shoe.branch Shoe.shoe Shoe.currentCard];
      intros Hb; first [reflexivity | discriminate Hb].
Qed.

Lemma shuffleDecks_keeps_cursor_witness :
  Shoe.currentCard
    (Shoe.shoe
       (Shoe.drawCardFromShoe (afterDraws 237 (Shoe.new identityRng).1
                                              (Shoe.new identityRng).2).1
                              identityRng)) = 1.
Proof.
  refine (proj2 (proj2 (shuffleDecks_keeps_cursor _ _)) _).
  vm_compute. reflexivity.
Defined.

(** C8, as stated, fails: after 237 draws from a new shoe the cursor is
    237, and it still is 237 when [shuffleDecks] returns. *)
Lemma shuffleDecks_cursor_not_reset :
  let s := (afterDraws 237 (Shoe.new identityRng).1 (Shoe.new identityRng).2).1 in
  Shoe.currentCard s = 237
  ∧ Shoe.currentCard (Shoe.shuffleDecks s identityRng).1 ≠ 0.
Proof. vm_compute. split; [reflexivity|discriminate]. Qed.

(** ** [drawCardFromShoe] *)

Lemma takeNext_ok (s : Shoe.t) (g : Rng.t) (p : Shoe.t * Rng.t) :
  length (Shoe.cards s) = Z.to_nat Shoe.SIZE →
  length (Shoe.cards p.1) = Z.to_nat Shoe.SIZE →
  0 ≤ Shoe.currentCard s ≤ Shoe.SIZE →
  draw_ok s g p
    (if bool_decide (Shoe.currentCard s >= Shoe.SIZE - RESHUFFLE_THRESHOLD) then
       Shoe.takeNext (Shoe.mk (Shoe.cards p.1) 0) p.2 Shoe.Reshuffled
     else if bool_decide (Shoe.currentCard s < Shoe.SIZE) then
       Shoe.takeNext s g Shoe.NextCard
     else
       Shoe.takeNext (Shoe.mk (Shoe.cards p.1) 0) p.2 Shoe.Exhausted).
Proof.
  intros Hl Hl' Hc.
  assert (HS : Shoe.SIZE = 312) by done.
  assert (HT : RESHUFFLE_THRESHOLD = 75) by done.
  case_bool_decide as H1; [|rewrite bool_decide_eq_true_2 by lia].
  all: split; cbn [Shoe.takeNext Shoe.branch Shoe.readAt Shoe.drawn Shoe.shoe
                   Shoe.rng Shoe.cards Shoe.currentCard];
    try done; try lia; try (intros ?; lia).
  all: apply list_lookup_lookup_total_lt; lia.
Qed.

Lemma drawCardFromShoe_ok (s : Shoe.t) (g : Rng.t) :
  length (Shoe.cards s) = Z.to_nat Shoe.SIZE →
  0 ≤ Shoe.currentCard s ≤ Shoe.SIZE →
  draw_ok s g (Shoe.shuffleDecks s g) (Shoe.drawCardFromShoe s g).
Proof.
  intros Hl Hc. rewrite drawCardFromShoe_unfold.
  apply takeNext_ok; [done| |done].
  by apply shuffleDecks_wf.
Qed.

(** The third [return] is dead code whatever the cursor is. *)
Lemma drawCardFromShoe_never_exhausted (s : Shoe.t) (g : Rng.t) :
  Shoe.branch (Shoe.drawCardFromShoe s g) ≠ Shoe.Exhausted.
Proof.
  assert (HS : Shoe.SIZE = 312) by done.
  assert (HT : RESHUFFLE_THRESHOLD = 75) by done.
  rewrite drawCardFromShoe_unfold.
  case_bool_decide as H1; [done|].
  by rewrite bool_decide_eq_true_2 by lia.
Qed.

Lemma draws_ok (n : nat) : ∀ s g,
  length (Shoe.cards s) = Z.to_nat Shoe.SIZE →
  0 ≤ Shoe.currentCard s ≤ Shoe.SIZE →
  Forall (λ d, Shoe.branch d ≠ Shoe.Exhausted
               ∧ 0 ≤ Shoe.readAt d < Shoe.SIZE
               ∧ 1 ≤ Shoe.currentCard (Shoe.shoe d)
                   ≤ Shoe.SIZE - RESHUFFLE_THRESHOLD)
         (draws n s g).
Proof.
  induction n as [|n IH]; intros s g Hl Hc; simpl; [constructor|].
  destruct (drawCardFromShoe_ok s g Hl Hc).
  constructor; [done|].
  apply IH; [done|].
  assert (HS : Shoe.SIZE = 312) by done.
  assert (HT : RESHUFFLE_THRESHOLD = 75) by done.
  lia.
Qed.

(** C7.  For every shoe of 312 cards with its cursor in [0, 312],
    [drawCardFromShoe] first reshuffles and sets the cursor to 0 when the
    cursor is at least 312 - 75, and otherwise leaves cards and generator
    alone; it then returns the card at the cursor, read at an index inside
    the array, and advances the cursor by 1, so that the new cursor lies in
    [1, 237]; the branch that reports exhaustion is not taken, in this
    draw or in any number of further draws. *)
Theorem drawCardFromShoe_safe (s : Shoe.t) (g : Rng.t) :
  length (Shoe.cards s) = 312%nat →
  0 ≤ Shoe.currentCard s ≤ 312 →
  let d := Shoe.drawCardFromShoe s g in
  (Shoe.currentCard s >= 312 - 75 →
     Shoe.branch d = Shoe.Reshuffled
     ∧ Shoe.cards (Shoe.shoe d) = Shoe.cards (Shoe.shuffleDecks s g).1
     ∧ Shoe.rng d = (Shoe.shuffleDecks s g).2
     ∧ Shoe.readAt d = 0)
  ∧ (Shoe.currentCard s < 312 - 75 →
     Shoe.branch d = Shoe.NextCard
     ∧ Shoe.cards (Shoe.shoe d) = Shoe.cards s
     ∧ Shoe.rng d = g
     ∧ Shoe.readAt d = Shoe.currentCard s)
  ∧ 0 ≤ Shoe.readAt d < 312
  ∧ (Z.to_nat (Shoe.readAt d) < length (Shoe.cards (Shoe.shoe d)))%nat
  ∧ Shoe.cards (Shoe.shoe d) !! Z.to_nat (Shoe.readAt d) = Some (Shoe.drawn d)
  ∧ Shoe.currentCard (Shoe.shoe d) = Shoe.readAt d + 1
  ∧ 1 ≤ Shoe.currentCard (Shoe.shoe d) ≤ 237
  ∧ Shoe.branch d ≠ Shoe.Exhausted
  ∧ ∀ n : nat,
      Forall (λ d', Shoe.branch d' ≠ Shoe.Exhausted
                    ∧ 0 ≤ Shoe.readAt d' < 312
                    ∧ 1 ≤ Shoe.currentCard (Shoe.shoe d') ≤ 237)
             (draws n s g).
Proof.
  intros Hl Hc d.
  destruct (drawCardFromShoe_ok s g Hl Hc) as [H1 H2 H3 H4 H5 H6 H7 H8].
  fold d in H1, H2, H3, H4, H5, H6, H7, H8.
  assert (HS : Shoe.SIZE = 312) by reflexivity.
  assert (HT : RESHUFFLE_THRESHOLD = 75) by reflexivity.
  rewrite HS, HT in *.
  split; [intros Hge; destruct (H7 ltac:(lia)) as (? & ? & ? & ?); auto|].
  split; [intros Hlt; destruct (H8 ltac:(lia)) as (? & ? & ? & ?); auto|].
  split; [exact H2|].
  split; [rewrite H6; change (Z.to_nat 312) with 312%nat; lia|].
  split; [exact H3|]. split; [exact H4|]. split; [exact H5|]. split; [exact H1|].
  intros n. exact (draws_ok n s g Hl Hc).
Qed.

Lemma drawCardFromShoe_safe_witness :
  Shoe.branch (Shoe.drawCardFromShoe (Shoe.new identityRng).1 identityRng)
  ≠ Shoe.Exhausted.
Proof.
  refine (proj1 (proj2 (proj2 (proj2 (proj2 (proj2 (proj2 (proj2
    (drawCardFromShoe_safe (Shoe.new identityRng).1 identityRng _ _))))))))).
  - vm_compute. reflexivity.
  - vm_compute. split; discriminate.
Defined.

(** ** The shoe as the program keeps it *)

Lemma takeNext_shoe_ok (s : Shoe.t) (g : Rng.t) (p : Shoe.t * Rng.t) :
  shoe_ok s → length (Shoe.cards p.1) = Z.to_nat Shoe.SIZE →
  Forall nonEmpty (Shoe.cards p.1) →
  let d := (if bool_decide (Shoe.currentCard s >= Shoe.SIZE - RESHUFFLE_THRESHOLD) then
       Shoe.takeNext (Shoe.mk (Shoe.cards p.1) 0) p.2 Shoe.Reshuffled
     else if bool_decide (Shoe.currentCard s < Shoe.SIZE) then
       Shoe.takeNext s g Shoe.NextCard
     else
       Shoe.takeNext (Shoe.mk (Shoe.cards p.1) 0) p.2 Shoe.Exhausted) in
  shoe_ok (Shoe.shoe d) ∧ nonEmpty (Shoe.drawn d).
Proof.
  intros [Hl Hc Hf] Hl' Hf' d.
  destruct (takeNext_ok s g p Hl Hl' Hc) as [_ H2 H3 H4 H5 H6 H7 H8]. fold d in H2, H3, H4, H5, H6, H7, H8.
  assert (HS : Shoe.SIZE = 312) by reflexivity.
  assert (HT : RESHUFFLE_THRESHOLD = 75) by reflexivity.
  assert (Hcards : Forall nonEmpty (Shoe.cards (Shoe.shoe d))).
  { destruct (decide (Shoe.currentCard s >= Shoe.SIZE - RESHUFFLE_THRESHOLD)) as [Hge|Hlt].
    - destruct (H7 Hge) as (_ & _ & -> & _). exact Hf'.
    - destruct (H8 ltac:(lia)) as (_ & _ & -> & _). exact Hf. }
  split.
  - split; [exact H6|lia|exact Hcards].
  - exact (Forall_lookup_1 _ _ _ _ Hcards H3).
Qed.

Lemma shuffleDecks_nonEmpty (s : Shoe.t) (g : Rng.t) :
  length (Shoe.cards s) = Z.to_nat Shoe.SIZE →
  Forall nonEmpty (Shoe.cards s) →
  Forall nonEmpty (Shoe.cards (Shoe.shuffleDecks s g).1).
Proof.
  intros Hl Hf. rewrite shuffleDecks_cards.
  rewrite shuffleLoop_Permutation; [exact Hf|lia| |exact Hl].
  rewrite Hl. lia.
Qed.

Lemma drawCardFromShoe_shoe_ok (s : Shoe.t) (g : Rng.t) :
  shoe_ok s →
  shoe_ok (Shoe.shoe (Shoe.drawCardFromShoe s g))
  ∧ nonEmpty (Shoe.drawn (Shoe.drawCardFromShoe s g)).
Proof.
  intros Hs. rewrite drawCardFromShoe_unfold.
  apply (takeNext_shoe_ok s g (Shoe.shuffleDecks s g) Hs).
  - apply shuffleDecks_wf, Hs.
  - apply shuffleDecks_nonEmpty; apply Hs.
Qed.

Lemma new_shoe_ok (g : Rng.t) : shoe_ok (Shoe.new g).1.
Proof.
  unfold Shoe.new.
  set (s0 := Shoe.initializeDecks _).
  assert (Hl : length (Shoe.cards s0) = Z.to_nat Shoe.SIZE) by (vm_compute; reflexivity).
  assert (Hf : Forall nonEmpty (Shoe.cards s0)).
  { refine (bool_decide_unpack _ _). vm_compute. exact I. }
  assert (Hc : Shoe.currentCard s0 = 0) by reflexivity.
  clearbody s0.
  split.
  - by apply shuffleDecks_wf.
  - rewrite shuffleDecks_currentCard, Hc. done.
  - by apply shuffleDecks_nonEmpty.
Qed.

(** * The round *)

Lemma fold_left_inv {A B : Type} (P : A → Prop) (f : A → B → A) (l : list B) :
  (∀ a x, P a → P (f a x)) → ∀ a, P a → P (fold_left f l a).
Proof.
  intros Hf. induction l as [|x l IH]; intros a Ha; simpl; [exact Ha|].
  apply IH, Hf, Ha.
Qed.

(** ** The dealer's loop *)

Lemma dealerTurn_unfold (fuel : nat) (h : Hand.t) (tb : Game.Table) :
  Game.dealerTurn fuel h tb
  = if bool_decide (Hand.evaluateHandScore h < DEALER_STAND) then
      match fuel with
      | O => None
      | S fuel' =>
          Game.dealerTurn fuel' (dealerStep (h, tb)).1 (dealerStep (h, tb)).2
      end
    else Some (h, tb).
Proof. destruct fuel; reflexivity. Qed.

(** When the loop exits, the dealer scores at least [DEALER_STAND]. *)
Lemma dealerTurn_exit (fuel : nat) : ∀ h tb h' tb',
  Game.dealerTurn fuel h tb = Some (h', tb') →
  DEALER_STAND ≤ Hand.evaluateHandScore h'.
Proof.
  induction fuel as [|fuel IH]; intros h tb h' tb'; rewrite dealerTurn_unfold;
    case_bool_decide as Hs; intros H.
  - discriminate H.
  - injection H as <- <-. lia.
  - by apply IH in H.
  - injection H as <- <-. lia.
Qed.

(** A dealer who scores 17 or more does not draw. *)
Lemma dealerTurn_stands (fuel : nat) (h : Hand.t) (tb : Game.Table) :
  DEALER_STAND ≤ Hand.evaluateHandScore h → Game.dealerTurn fuel h tb = Some (h, tb).
Proof.
  intros Hs. rewrite dealerTurn_unfold, bool_decide_eq_false_2 by lia. reflexivity.
Qed.

(** With the hand at the limit of [addCardToHand] and the score below
    [DEALER_STAND], every pass drops the drawn card and no amount of
    fuel lets the loop exit. *)
Lemma dealerTurn_full (fuel : nat) : ∀ h tb,
  Hand.numCards h = Hand.MAX_HAND_SIZE - 1 →
  Hand.evaluateHandScore h < DEALER_STAND →
  Game.dealerTurn fuel h tb = None.
Proof.
  induction fuel as [|fuel IH]; intros h tb Hn Hs;
    rewrite dealerTurn_unfold, bool_decide_eq_true_2 by assumption.
  - reflexivity.
  - unfold dealerStep. cbn [fst snd].
    rewrite addCardToHand_full by lia. apply IH; assumption.
Qed.

Lemma dealerTurn_stuck (k : nat) : ∀ h tb fuel,
  stuckAfter k (h, tb) = true → Game.dealerTurn fuel h tb = None.
Proof.
  induction k as [|k IH]; intros h tb fuel Hk; cbn [stuckAfter fst snd] in *.
  - apply andb_true_iff in Hk as [H1 H2].
    apply bool_decide_eq_true in H1, H2. by apply dealerTurn_full.
  - apply andb_true_iff in Hk as [H1 H2].
    rewrite dealerTurn_unfold, H1. destruct fuel; [reflexivity|].
    apply IH. by destruct (dealerStep (h, tb)).
Qed.

(** The dealer's loop exits within the passes that fill the hand, or the
    hand fills up below [DEALER_STAND]. *)
Lemma dealerTurn_exits_or_stuck (m : nat) : ∀ h tb,
  shoe_ok (Game.deck tb) →
  Hand.numCards h + Z.of_nat m = Hand.MAX_HAND_SIZE - 1 →
  is_Some (Game.dealerTurn m h tb) ∨ stuckAfter m (h, tb) = true.
Proof.
  induction m as [|m IH]; intros h tb Hok Hn;
    rewrite dealerTurn_unfold; cbn [stuckAfter fst snd].
  - case_bool_decide as Hs; [right|left; by eexists].
    rewrite bool_decide_eq_true_2 by lia. reflexivity.
  - case_bool_decide as Hs; [|left; by eexists]. cbn [andb].
    destruct (drawCardFromShoe_shoe_ok (Game.deck tb) (Game.rng tb) Hok) as [Hok' Hne].
    destruct (IH (dealerStep (h, tb)).1 (dealerStep (h, tb)).2) as [H|H].
    + exact Hok'.
    + unfold dealerStep. cbn [fst snd]. rewrite addCardToHand_grows by (done || lia). lia.
    + by left.
    + right. by destruct (dealerStep (h, tb)).
Qed.

(** The dealer's loop can exit exactly when the hand does not fill up
    below [DEALER_STAND]. *)
Lemma dealerTurn_terminates_iff (m : nat) (h : Hand.t) (tb : Game.Table) :
  shoe_ok (Game.deck tb) →
  Hand.numCards h + Z.of_nat m = Hand.MAX_HAND_SIZE - 1 →
  (∃ fuel, is_Some (Game.dealerTurn fuel h tb)) ↔ stuckAfter m (h, tb) = false.
Proof.
  intros Hok Hn. split.
  - intros [fuel [r Hr]]. destruct (stuckAfter m (h, tb)) eqn:E; [|reflexivity].
    rewrite (dealerTurn_stuck m h tb fuel E) in Hr. discriminate Hr.
  - intros Hs. exists m.
    destruct (dealerTurn_exits_or_stuck m h tb Hok Hn) as [H|H]; [exact H|congruence].
Qed.

Lemma dealerTurn_grows (fuel : nat) : ∀ h tb h' tb',
  Game.dealerTurn fuel h tb = Some (h', tb') →
  shoe_ok (Game.deck tb) →
  shoe_ok (Game.deck tb')
  ∧ Hand.numCards h ≤ Hand.numCards h'
  ∧ (Hand.numCards h < Hand.MAX_HAND_SIZE - 1 →
     h' = h ∨ Hand.numCards h < Hand.numCards h').
Proof.
  induction fuel as [|fuel IH]; intros h tb h' tb'; rewrite dealerTurn_unfold;
    case_bool_decide as Hs; intros H Hok.
  - discriminate H.
  - injection H as <- <-. split; [exact Hok|]. split; [lia|by left].
  - destruct (drawCardFromShoe_shoe_ok (Game.deck tb) (Game.rng tb) Hok) as [Hok' Hne].
    apply IH in H as (H0 & H1 & H2); [|exact Hok'].
    unfold dealerStep in H1, H2. cbn [fst snd] in H1, H2.
    pose proof (addCardToHand_mono h
      (Shoe.drawn (Shoe.drawCardFromShoe (Game.deck tb) (Game.rng tb)))).
    split; [exact H0|]. split; [lia|]. intros Hn. right.
    rewrite addCardToHand_grows in H1 by done. lia.
  - injection H as <- <-. split; [exact Hok|]. split; [lia|by left].
Qed.

(** ** The players' turns *)

(** [hitOrStand] only ever returns [false]: the [while] around it runs
    its body once, whatever the fuel. *)
Lemma hitOrStand_false (inp : list Game.Decision) :
  ∀ h d deck g tr again h' tb',
  Game.hitOrStand inp h d deck g tr = Some (again, h', tb') → again = false.
Proof.
  induction inp as [|dec inp IH]; intros h d deck g tr again h' tb';
    cbn [Game.hitOrStand].
  - discriminate.
  - destruct dec.
    + case_bool_decide.
      * by intros [= <- _ _].
      * apply IH.
    + by intros [= <- _ _].
Qed.

Lemma playerTurn_fuel (fuel : nat) (h d : Hand.t) (tb : Game.Table) :
  Game.playerTurn fuel h d tb = Game.playerTurn 0 h d tb.
Proof.
  destruct fuel; [reflexivity|]. cbn [Game.playerTurn].
  destruct (Game.hitOrStand _ _ _ _ _ _) as [[[again h'] tb']|] eqn:E; [|reflexivity].
  apply hitOrStand_false in E. subst again. reflexivity.
Qed.

Lemma turnOf_fuel (fuel : nat) (st : option (list Hand.t * Game.Table)) (i : nat) :
  Game.turnOf fuel st i = Game.turnOf 0 st i.
Proof.
  unfold Game.turnOf. destruct st as [[hands tb]|]; [|reflexivity].
  by rewrite (playerTurn_fuel fuel).
Qed.

Lemma playersTurns_fuel (fuel : nat) (hands : list Hand.t) (tb : Game.Table) :
  Game.playersTurns fuel hands tb = Game.playersTurns 0 hands tb.
Proof.
  unfold Game.playersTurns. generalize (Some (hands, tb)).
  induction (seq 0 (length hands)) as [|i idx IH]; intros st; simpl; [reflexivity|].
  by rewrite IH, turnOf_fuel.
Qed.

(** ** [playRound] and [main], unfolded *)

Lemma collectCards_unfold (hands : list Hand.t) (deck : Shoe.t) (g : Rng.t) :
  Game.collectCards hands deck g
  = (map (λ hand, Hand.mk (Hand.owner hand) 0 (Hand.card hand)) hands,
     (Shoe.shuffleDecks (Shoe.mk (Shoe.cards deck) 0) g).1,
     (Shoe.shuffleDecks (Shoe.mk (Shoe.cards deck) 0) g).2).
Proof.
  unfold Game.collectCards. destruct (Shoe.shuffleDecks _ g). reflexivity.
Qed.

Lemma playRound_unfold (fuel : nat) (deck : Shoe.t) (n : Z) (stats : GameStats.t)
    (g : Rng.t) (inp : list Game.Decision) :
  Game.playRound fuel deck n stats g inp
  = let dealtOut := Game.dealCards (Game.initializeGameHands n) deck g in
    let stats1 := Game.checkBlackjack dealtOut.1.1 stats n in
    let played :=
      if negb (Game.shouldEndRoundEarly stats1) then
        match Game.playersTurns fuel dealtOut.1.1
                (Game.mkTable dealtOut.1.2 dealtOut.2 inp []) with
        | None => None
        | Some (hands, tb) =>
            match Game.dealerTurn fuel (Game.back hands) tb with
            | None => None
            | Some (dealerHand, tb) =>
                Some (<[(length hands - 1)%nat := dealerHand]> hands, tb)
            end
        end
      else Some (dealtOut.1.1, Game.mkTable dealtOut.1.2 dealtOut.2 inp []) in
    match played with
    | None => None
    | Some (hands, tb) =>
        let done := Game.collectCards hands (Game.deck tb) (Game.rng tb) in
        Some (Game.mkRound hands (Game.deck tb) done.1.1
                (Game.determineWinner hands stats1 n)
                (Game.mkTable done.1.2 done.2 (Game.input tb) (Game.trace tb)))
    end.
Proof.
  unfold Game.playRound.
  destruct (Game.dealCards _ deck g) as [[hs d1] g1]. cbn [fst snd].
  destruct (if negb _ then _ else _) as [[hands tb]|]; [|reflexivity].
  destruct (Game.collectCards _ _ _) as [[hs' d'] g']. reflexivity.
Qed.

Lemma firstRound_unfold (fuel : nat) (g : Rng.t) (n : Z) (inp : list Game.Decision) :
  Game.firstRound fuel g n inp
  = Game.playRound fuel (Shoe.new g).1 n (GameStats.new n) (Shoe.new g).2 inp.
Proof. unfold Game.firstRound. destruct (Shoe.new g). reflexivity. Qed.

Lemma collectCards_shoe_ok (hands : list Hand.t) (deck : Shoe.t) (g : Rng.t) :
  shoe_ok deck → shoe_ok (Game.collectCards hands deck g).1.2.
Proof.
  intros [Hl Hc Hf]. rewrite collectCards_unfold. cbn [fst snd]. split.
  - by apply shuffleDecks_wf.
  - rewrite shuffleDecks_currentCard. done.
  - by apply shuffleDecks_nonEmpty.
Qed.

Lemma playRound_dealer_None (fuel : nat) (deck : Shoe.t) (n : Z)
    (stats : GameStats.t) (g : Rng.t) (inp : list Game.Decision)
    (hands : list Hand.t) (tb : Game.Table) :
  Game.shouldEndRoundEarly
    (Game.checkBlackjack
       (Game.dealCards (Game.initializeGameHands n) deck g).1.1 stats n)
  = false →
  Game.playersTurns 0 (Game.dealCards (Game.initializeGameHands n) deck g).1.1
    (Game.mkTable (Game.dealCards (Game.initializeGameHands n) deck g).1.2
                  (Game.dealCards (Game.initializeGameHands n) deck g).2 inp [])
  = Some (hands, tb) →
  Game.dealerTurn fuel (Game.back hands) tb = None →
  Game.playRound fuel deck n stats g inp = None.
Proof.
  rewrite playRound_unfold. cbv zeta. intros -> Hp Hd. cbn [negb].
  rewrite playersTurns_fuel, Hp, Hd. reflexivity.
Qed.

(** C6 (as the code has it).  In the first round of a game with one player
    who stands on K Q, the dealer starts the turn with 2 2 and the shoe
    yields 2 2 2 2 A A A A: after eight passes the dealer holds ten cards
    that score 16, [addCardToHand] drops every further card, and the loop
    [while (score < 17)] does not exit with any amount of fuel; [playRound]
    does not return. *)
Theorem dealer_turn_never_exits :
  dealerStart stuckRng 1 [Game.Stand] = Some stuckStart
  ∧ Hand.evaluateHandScore (Game.back stuckStart.1) = 4
  ∧ Hand.evaluateHandScore (Nat.iter 8 dealerStep (Game.back stuckStart.1, stuckStart.2)).1
    = 16
  ∧ Hand.numCards (Nat.iter 9 dealerStep (Game.back stuckStart.1, stuckStart.2)).1
    = 10
  ∧ ∀ fuel : nat,
      Game.dealerTurn fuel (Game.back stuckStart.1) stuckStart.2 = None
      ∧ Game.firstRound fuel stuckRng 1 [Game.Stand] = None.
Proof.
  split; [vm_compute; reflexivity|].
  split; [vm_compute; reflexivity|].
  split; [vm_compute; reflexivity|].
  split; [vm_compute; reflexivity|].
  intros fuel.
  assert (Hd : Game.dealerTurn fuel (Game.back stuckStart.1) stuckStart.2 = None).
  { apply (dealerTurn_stuck 8). vm_compute. reflexivity. }
  split; [exact Hd|].
  rewrite firstRound_unfold.
  apply (playRound_dealer_None fuel _ 1 _ _ [Game.Stand] stuckStart.1 stuckStart.2).
  - vm_compute. reflexivity.
  - vm_compute. reflexivity.
  - exact Hd.
Qed.

(** ** The end of a round *)

(** Goals [totalRounds e = r] where [e] is built from branches, loops over
    the players and increments of other counters. *)
Ltac rounds_unchanged :=
  repeat first
    [ assumption
    | reflexivity
    | progress unfold Game.compareHands
    | progress cbn beta
    | progress cbn [GameStats.totalRounds GameStats.incrWins GameStats.incrLosses
                    GameStats.incrTies GameStats.incrBlackjacks
                    GameStats.incrDealerWins GameStats.incrDealerBlackjacks
                    GameStats.setPlayerBlackjack]
    | match goal with
      | |- GameStats.totalRounds (if ?b then _ else _) = _ => destruct b
      | |- GameStats.totalRounds (fold_left _ _ _) = ?r =>
          apply (fold_left_inv (λ s, GameStats.totalRounds s = r));
          [intros ? ? ?|]
      end ].

Lemma compareHands_totalRounds (p d : Hand.t) (st : GameStats.t) (i : nat) :
  GameStats.totalRounds (Game.compareHands p d st i) = GameStats.totalRounds st.
Proof. rounds_unchanged. Qed.

Lemma checkBlackjack_totalRounds (hands : list Hand.t) (st : GameStats.t) (n : Z) :
  GameStats.totalRounds (Game.checkBlackjack hands st n) = GameStats.totalRounds st.
Proof.
  unfold Game.checkBlackjack.
  destruct (GameStats.dealerBlackjack _); [|rounds_unchanged].
  match goal with |- context [fold_left ?f ?l ?a] =>
    assert (H : GameStats.totalRounds (fold_left f l a).1 = GameStats.totalRounds st);
    [|destruct (fold_left f l a) as [s b]]
  end.
  - apply (fold_left_inv (λ p, GameStats.totalRounds p.1 = GameStats.totalRounds st));
      [|reflexivity].
    intros [s b] i Hs. simpl in *. destruct (Game.isBlackjack _); exact Hs.
  - simpl in H. rounds_unchanged.
Qed.

Lemma determineWinner_totalRounds (hands : list Hand.t) (st : GameStats.t) (n : Z) :
  GameStats.totalRounds (Game.determineWinner hands st n)
  = GameStats.totalRounds st + 1.
Proof.
  unfold Game.determineWinner.
  cbn [GameStats.incrTotalRounds GameStats.totalRounds]. f_equal.
  rounds_unchanged.
Qed.

(** C3 (as the code has it).  At the end of every round [determineWinner]
    adds 1 to [totalRounds], and [collectCards] sets the card count of
    every hand to 0, sets the cursor of the shoe to 0 and reshuffles the
    shoe: a round that returns leaves the cursor at 0. *)
Theorem round_end_resets_cursor :
  (∀ hands stats numPlayers deck g,
     GameStats.totalRounds (Game.determineWinner hands stats numPlayers)
       = GameStats.totalRounds stats + 1
     ∧ Forall (λ h, Hand.numCards h = 0) (Game.collectCards hands deck g).1.1
     ∧ (Game.collectCards hands deck g).1.2
       = (Shoe.shuffleDecks (Shoe.mk (Shoe.cards deck) 0) g).1
     ∧ Shoe.currentCard (Game.collectCards hands deck g).1.2 = 0)
  ∧ (∀ fuel deck numPlayers stats g inp r,
       Game.playRound fuel deck numPlayers stats g inp = Some r →
       GameStats.totalRounds (Game.stats r) = GameStats.totalRounds stats + 1
       ∧ Forall (λ h, Hand.numCards h = 0) (Game.hands r)
       ∧ Shoe.currentCard (Game.deck (Game.table r)) = 0).
Proof.
  assert (Hdone : ∀ hands stats numPlayers deck g,
     GameStats.totalRounds (Game.determineWinner hands stats numPlayers)
       = GameStats.totalRounds stats + 1
     ∧ Forall (λ h, Hand.numCards h = 0) (Game.collectCards hands deck g).1.1
     ∧ (Game.collectCards hands deck g).1.2
       = (Shoe.shuffleDecks (Shoe.mk (Shoe.cards deck) 0) g).1
     ∧ Shoe.currentCard (Game.collectCards hands deck g).1.2 = 0).
  { intros hands stats n deck g. split; [apply determineWinner_totalRounds|].
    rewrite collectCards_unfold. cbn [fst snd]. split; [|split].
    - induction hands as [|h hands IH]; constructor; [reflexivity|exact IH].
    - reflexivity.
    - apply shuffleDecks_currentCard. }
  split; [exact Hdone|].
  intros fuel deck n stats g inp r. rewrite playRound_unfold. cbv zeta.
  destruct (if negb _ then _ else _) as [[hands tb]|]; [|discriminate].
  intros H. apply (inj Some) in H. rewrite <- H.
  cbn [Game.stats Game.hands Game.table Game.deck].
  destruct (Hdone hands (Game.checkBlackjack
     (Game.dealCards (Game.initializeGameHands n) deck g).1.1 stats n) n
     (Game.deck tb) (Game.rng tb)) as (H1 & H2 & _ & H3).
  rewrite H1, checkBlackjack_totalRounds. split; [reflexivity|]. split; assumption.
Qed.

Lemma round_end_resets_cursor_witness :
  let r := roundOf (Game.firstRound 0 plainRng 1 [Game.Stand]) in
  GameStats.totalRounds (Game.stats r) = 0 + 1
  ∧ Forall (λ h, Hand.numCards h = 0) (Game.hands r)
  ∧ Shoe.currentCard (Game.deck (Game.table r)) = 0.
Proof.
  intros r.
  refine (proj2 round_end_resets_cursor 0%nat (Shoe.new plainRng).1 1
            (GameStats.new 1) (Shoe.new plainRng).2 [Game.Stand] r _).
  vm_compute. reflexivity.
Defined.

(** C3, as stated, fails: in the first round of a game with one player who
    stands, four cards are dealt and none drawn, so the cursor is 4 when
    the hands are shown; it is 0 when [playRound] returns. *)
Lemma round_end_cursor_changed :
  let r := roundOf (Game.firstRound 0 plainRng 1 [Game.Stand]) in
  Game.firstRound 0 plainRng 1 [Game.Stand] = Some r
  ∧ Shoe.currentCard (Game.drawnFrom r) = 4
  ∧ Shoe.currentCard (Game.deck (Game.table r)) ≠ Shoe.currentCard (Game.drawnFrom r).
Proof. vm_compute. repeat split; discriminate. Qed.

(** ** The blackjack flags after [checkBlackjack] *)

Lemma flagsAfter_lookup (hands : list Hand.t) (k : nat) : ∀ fl (j : nat),
  flagsAfter hands k fl !! j
  = if decide (j < k ∧ j < length fl)%nat
    then Some (Game.isBlackjack (hands !!! j)) else fl !! j.
Proof.
  unfold flagsAfter. induction k as [|k IH]; intros fl j.
  - cbn [seq fold_left]. case_decide; [lia|reflexivity].
  - rewrite seq_S, fold_left_app. cbn [fold_left Nat.add].
    rewrite list_lookup_insert.
    assert (Hlen : length (fold_left
                     (λ fl i, <[i := Game.isBlackjack (hands !!! i)]> fl)
                     (seq 0 k) fl) = length fl).
    { apply (fold_left_inv (λ l, length l = length fl)); [|reflexivity].
      intros l i Hl. by rewrite length_insert. }
    rewrite Hlen, IH.
    repeat case_decide; try reflexivity; try lia.
    destruct_and!. by subst.
Qed.

(** Both branches of [checkBlackjack] record the dealer's natural and
    recompute the flag of every player. *)
Lemma checkBlackjack_flags (hands : list Hand.t) (st : GameStats.t) (n : Z) :
  GameStats.dealerBlackjack (Game.checkBlackjack hands st n)
    = Game.isBlackjack (Game.back hands)
  ∧ GameStats.playerBlackjack (Game.checkBlackjack hands st n)
    = flagsAfter hands (length hands - 1) (GameStats.playerBlackjack st).
Proof.
  unfold Game.checkBlackjack, flagsAfter.
  cbn [GameStats.setDealerBlackjack GameStats.dealerBlackjack].
  destruct (Game.isBlackjack (Game.back hands)) eqn:Hd.
  - match goal with |- context [fold_left ?f ?l (?a, false)] =>
      assert (H : ∀ l0 s b fl,
        GameStats.dealerBlackjack s = true → GameStats.playerBlackjack s = fl →
        GameStats.dealerBlackjack (fold_left f l0 (s, b)).1 = true
        ∧ GameStats.playerBlackjack (fold_left f l0 (s, b)).1
          = fold_left (λ fl i, <[i := Game.isBlackjack (hands !!! i)]> fl) l0 fl)
    end.
    { induction l0 as [|i l0 IH]; intros s b fl Hs Hfl; simpl; [by split|].
      destruct (Game.isBlackjack (hands !!! i)); apply IH; simpl; congruence. }
    match goal with |- context [fold_left ?f ?l (?a, false)] =>
      destruct (H l a false (GameStats.playerBlackjack st) eq_refl eq_refl) as [H1 H2];
      destruct (fold_left f l (a, false)) as [s b]
    end.
    simpl in *. destruct b; simpl; by split.
  - split.
    + apply (fold_left_inv (λ s, GameStats.dealerBlackjack s = false)); [|reflexivity].
      intros s i Hs. exact Hs.
    + match goal with |- context [fold_left ?f ?l ?a] =>
        assert (H : ∀ l0 s fl, GameStats.playerBlackjack s = fl →
          GameStats.playerBlackjack (fold_left f l0 s)
          = fold_left (λ fl i, <[i := Game.isBlackjack (hands !!! i)]> fl) l0 fl)
      end.
      { induction l0 as [|i l0 IH]; intros s fl Hfl; simpl; [exact Hfl|].
        apply IH. simpl. congruence. }
      by apply H.
Qed.

Lemma existsb_id_lookup (l : list bool) :
  existsb (λ b : bool, b) l = true ↔ ∃ j : nat, l !! j = Some true.
Proof.
  induction l as [|b l IH]; simpl.
  - split; [discriminate|]. intros [j Hj]. by destruct j.
  - destruct b; simpl.
    + split; [|reflexivity]. intros _. by exists O.
    + rewrite IH. split.
      * intros [j Hj]. by exists (S j).
      * intros [[|j] Hj]; [discriminate|]. by exists j.
Qed.

Lemma shouldEndRoundEarly_true (hands : list Hand.t) (st : GameStats.t) (n : Z) :
  Game.isBlackjack (Game.back hands) = true →
  (length (GameStats.playerBlackjack st) ≤ length hands - 1)%nat →
  (∀ i : nat, (i < length hands - 1)%nat → Game.isBlackjack (hands !!! i) = false) →
  Game.shouldEndRoundEarly (Game.checkBlackjack hands st n) = true.
Proof.
  intros Hd Hlen Hp. unfold Game.shouldEndRoundEarly.
  destruct (checkBlackjack_flags hands st n) as [-> ->]. rewrite Hd.
  destruct (existsb _ _) eqn:E; [|reflexivity].
  apply existsb_id_lookup in E as [j Hj].
  rewrite flagsAfter_lookup in Hj. case_decide as Hc.
  - rewrite Hp in Hj by lia. discriminate.
  - apply lookup_lt_Some in Hj. lia.
Qed.

Lemma shouldEndRoundEarly_false (hands : list Hand.t) (st : GameStats.t) (n : Z)
    (i : nat) :
  (i < length hands - 1)%nat → (i < length (GameStats.playerBlackjack st))%nat →
  Game.isBlackjack (hands !!! i) = true →
  Game.shouldEndRoundEarly (Game.checkBlackjack hands st n) = false.
Proof.
  intros Hi Hl Hp. unfold Game.shouldEndRoundEarly.
  destruct (checkBlackjack_flags hands st n) as [-> ->].
  destruct (Game.isBlackjack (Game.back hands)); [|reflexivity].
  rewrite (proj2 (existsb_id_lookup _)); [reflexivity|].
  exists i. rewrite flagsAfter_lookup, decide_True by lia. by rewrite Hp.
Qed.

(** ** Owners and the dealer's hand through dealing and the turns *)

Lemma drawFromShoe_owner (h : Hand.t) (deck : Shoe.t) (g : Rng.t) :
  Hand.owner (Game.drawFromShoe h deck g).1.1 = Hand.owner h.
Proof.
  unfold Game.drawFromShoe. destruct (_ && _); cbn [fst snd]; [|reflexivity].
  apply addCardToHand_owner.
Qed.

Lemma insert_same_owner (hs : list Hand.t) (i : nat) (h : Hand.t) :
  Hand.owner h = Hand.owner (hs !!! i) →
  Hand.owner <$> <[i := h]> hs = Hand.owner <$> hs.
Proof.
  intros Ho. rewrite list_fmap_insert. apply list_insert_id'.
  rewrite length_fmap. intros Hi. rewrite list_lookup_fmap.
  rewrite (list_lookup_lookup_total_lt hs i Hi). simpl. by rewrite Ho.
Qed.

Lemma back_lookup (hs : list Hand.t) : hs !!! pred (length hs) = Game.back hs.
Proof.
  unfold Game.back. rewrite last_lookup.
  rewrite list_lookup_total_alt. reflexivity.
Qed.

Lemma back_insert_ne (hs : list Hand.t) (i : nat) (h : Hand.t) :
  i ≠ pred (length hs) → Game.back (<[i := h]> hs) = Game.back hs.
Proof.
  intros Hi. unfold Game.back. rewrite !last_lookup, length_insert.
  by rewrite list_lookup_insert_ne.
Qed.

Lemma back_insert_back (hs : list Hand.t) :
  <[(length hs - 1)%nat := Game.back hs]> hs = hs.
Proof.
  apply list_insert_id'. intros Hi. unfold Game.back. rewrite last_lookup.
  replace (pred (length hs)) with (length hs - 1)%nat by lia.
  destruct (hs !! (length hs - 1)%nat) eqn:E; [reflexivity|].
  apply lookup_ge_None in E. lia.
Qed.

Lemma back_owner (hs : list Hand.t) :
  last (Hand.owner <$> hs) = Some "Dealer" → Hand.owner (Game.back hs) = "Dealer".
Proof.
  rewrite fmap_last. unfold Game.back. destruct (last hs); simpl; congruence.
Qed.

Lemma initializeGameHands_owners (n : Z) :
  last (Hand.owner <$> Game.initializeGameHands n) = Some "Dealer".
Proof. unfold Game.initializeGameHands. rewrite fmap_app. apply last_snoc. Qed.

Lemma initializeGameHands_length (n : Z) :
  length (Game.initializeGameHands n) = S (Z.to_nat n).
Proof.
  unfold Game.initializeGameHands.
  rewrite length_app, length_map, length_seq. simpl. lia.
Qed.

Lemma dealCards_owners (hands : list Hand.t) (deck : Shoe.t) (g : Rng.t) :
  Hand.owner <$> (Game.dealCards hands deck g).1.1 = Hand.owner <$> hands.
Proof.
  unfold Game.dealCards.
  apply (fold_left_inv (λ st, Hand.owner <$> st.1.1 = Hand.owner <$> hands));
    [|reflexivity].
  intros st _ Hst.
  apply (fold_left_inv (λ st, Hand.owner <$> st.1.1 = Hand.owner <$> hands));
    [|exact Hst].
  clear. intros [[hs d] g] i Hst. unfold Game.dealOne.
  pose proof (drawFromShoe_owner (hs !!! i) d g) as Ho.
  destruct (Game.drawFromShoe (hs !!! i) d g) as [[h d'] g']. cbn [fst snd] in *.
  by rewrite insert_same_owner.
Qed.

Lemma dealCards_length (hands : list Hand.t) (deck : Shoe.t) (g : Rng.t) :
  length (Game.dealCards hands deck g).1.1 = length hands.
Proof.
  rewrite <- (length_fmap Hand.owner), dealCards_owners. apply length_fmap.
Qed.

Lemma dealt_back_owner (n : Z) (deck : Shoe.t) (g : Rng.t) :
  Hand.owner (Game.back (Game.dealCards (Game.initializeGameHands n) deck g).1.1)
  = "Dealer".
Proof.
  apply back_owner. rewrite dealCards_owners. apply initializeGameHands_owners.
Qed.

Lemma dealt_length (n : Z) (deck : Shoe.t) (g : Rng.t) :
  length (Game.dealCards (Game.initializeGameHands n) deck g).1.1 = S (Z.to_nat n).
Proof. by rewrite dealCards_length, initializeGameHands_length. Qed.

Lemma hitOrStand_inv (inp : list Game.Decision) : ∀ h d deck g tr again h' tb',
  Game.hitOrStand inp h d deck g tr = Some (again, h', tb') →
  Hand.owner h' = Hand.owner h
  ∧ (forallb isAsked tr = true → forallb isAsked (Game.trace tb') = true).
Proof.
  induction inp as [|dec inp IH]; intros h d deck g tr again h' tb';
    cbn [Game.hitOrStand]; [discriminate|].
  assert (Htr : ∀ o, forallb isAsked tr = true →
                forallb isAsked (tr ++ [Game.Asked o dec]) = true).
  { intros o Ht. rewrite forallb_app, Ht. reflexivity. }
  destruct dec.
  - case_bool_decide as Hbust.
    + intros H. apply (inj Some) in H. injection H as _ <- <-.
      split; [apply addCardToHand_owner|]. apply Htr.
    + intros H. apply IH in H as [H1 H2]. rewrite addCardToHand_owner in H1.
      split; [exact H1|]. intros Ht. apply H2, Htr, Ht.
  - intros H. apply (inj Some) in H. injection H as _ <- <-.
    split; [reflexivity|]. apply Htr.
Qed.

Lemma playerTurn_inv (fuel : nat) (h d : Hand.t) (tb : Game.Table)
    (h' : Hand.t) (tb' : Game.Table) :
  Game.playerTurn fuel h d tb = Some (h', tb') →
  Hand.owner h' = Hand.owner h
  ∧ (forallb isAsked (Game.trace tb) = true →
     forallb isAsked (Game.trace tb') = true).
Proof.
  rewrite playerTurn_fuel. cbn [Game.playerTurn].
  destruct (Game.hitOrStand _ _ _ _ _ _) as [[[again h1] tb1]|] eqn:E; [|discriminate].
  pose proof (hitOrStand_false _ _ _ _ _ _ _ _ _ E) as ->.
  intros H. apply (inj Some) in H. injection H as <- <-.
  by apply hitOrStand_inv in E.
Qed.

Lemma turnOf_inv (fuel : nat) (hands : list Hand.t)
    (st : option (list Hand.t * Game.Table)) (i : nat) :
  Hand.owner (Game.back hands) = "Dealer" →
  turns_inv hands st → turns_inv hands (Game.turnOf fuel st i).
Proof.
  intros Hd. destruct st as [[hs tb]|]; [|exact id]. intros (Ho & Hb & Ht).
  unfold Game.turnOf. destruct (_ && _) eqn:Hc; [|by repeat split].
  apply andb_true_iff in Hc as [Hc _]. apply bool_decide_eq_true in Hc.
  destruct (Game.playerTurn fuel (hs !!! i) (Game.back hs) tb) as [[h' tb']|] eqn:E;
    [|exact I].
  apply playerTurn_inv in E as [E1 E2]. repeat split.
  - by rewrite insert_same_owner.
  - rewrite back_insert_ne; [exact Hb|].
    intros ->. rewrite back_lookup, Hb in Hc. contradiction.
  - by apply E2.
Qed.

Lemma playersTurns_inv (fuel : nat) (hands : list Hand.t) (tb : Game.Table) :
  Hand.owner (Game.back hands) = "Dealer" →
  forallb isAsked (Game.trace tb) = true →
  turns_inv hands (Game.playersTurns fuel hands tb).
Proof.
  intros Hd Ht. unfold Game.playersTurns.
  apply (fold_left_inv (turns_inv hands)).
  - intros st i. by apply turnOf_inv.
  - by repeat split.
Qed.

Lemma isBlackjack_score (h : Hand.t) :
  Game.isBlackjack h = true →
  Hand.numCards h = 2 ∧ Hand.evaluateHandScore h = BLACKJACK.
Proof.
  unfold Game.isBlackjack. intros [H1 H2]%andb_true_iff.
  by apply bool_decide_eq_true in H1, H2.
Qed.

(** ** A dealer's natural *)

(** A round dealt a dealer's natural: the dealer's hand is shown as dealt,
    nothing but prompts happens, and the ledger is settled on the hands
    shown. *)
Lemma playRound_natural (fuel : nat) (deck : Shoe.t) (n : Z) (stats : GameStats.t)
    (g : Rng.t) (inp : list Game.Decision) (r : Game.Round) :
  Game.isBlackjack (Game.back (Game.dealCards (Game.initializeGameHands n) deck g).1.1)
  = true →
  Game.playRound fuel deck n stats g inp = Some r →
  Game.back (Game.revealed r)
    = Game.back (Game.dealCards (Game.initializeGameHands n) deck g).1.1
  ∧ length (Game.revealed r)
    = length (Game.dealCards (Game.initializeGameHands n) deck g).1.1
  ∧ forallb isAsked (Game.trace (Game.table r)) = true
  ∧ Game.stats r
    = Game.determineWinner (Game.revealed r)
        (Game.checkBlackjack
           (Game.dealCards (Game.initializeGameHands n) deck g).1.1 stats n) n.
Proof.
  intros Hd. rewrite playRound_unfold. cbv zeta.
  pose proof (dealt_back_owner n deck g) as Ho.
  set (dealtOut := Game.dealCards (Game.initializeGameHands n) deck g) in *.
  destruct (Game.shouldEndRoundEarly _); cbn [negb].
  - intros H. apply (inj Some) in H. rewrite <- H.
    cbn [Game.revealed Game.table Game.trace Game.stats]. repeat split; reflexivity.
  - pose proof (playersTurns_inv fuel dealtOut.1.1
                  (Game.mkTable dealtOut.1.2 dealtOut.2 inp []) Ho eq_refl) as Hinv.
    destruct (Game.playersTurns _ _ _) as [[hands2 tb2]|]; [|intros H; discriminate H].
    destruct Hinv as (Hown & Hb & Ht).
    apply isBlackjack_score in Hd as [_ Hs].
    rewrite Hb, dealerTurn_stands by (rewrite Hs; unfold BLACKJACK, DEALER_STAND; lia).
    intros H. apply (inj Some) in H. rewrite <- H.
    cbn [Game.revealed Game.table Game.trace Game.stats].
    rewrite <- Hb, back_insert_back. split; [reflexivity|].
    split; [|split; [exact Ht|reflexivity]].
    by rewrite <- (length_fmap Hand.owner), Hown, length_fmap.
Qed.

Lemma hitOrStand_extends (inp : list Game.Decision) : ∀ h d deck g tr again h' tb',
  Game.hitOrStand inp h d deck g tr = Some (again, h', tb') →
  ∃ evs, Game.trace tb' = tr ++ evs.
Proof.
  induction inp as [|dec inp IH]; intros h d deck g tr again h' tb';
    cbn [Game.hitOrStand]; [discriminate|].
  destruct dec.
  - case_bool_decide as Hbust; intros H.
    + apply (inj Some) in H. injection H as _ _ <-. by eexists.
    + apply IH in H as [evs ->]. rewrite <- app_assoc. by eexists.
  - intros H. apply (inj Some) in H. injection H as _ _ <-. by eexists.
Qed.

(** A call of [hitOrStand] that returns has prompted the owner of the hand. *)
Lemma hitOrStand_asks (inp : list Game.Decision) (h d : Hand.t) (deck : Shoe.t)
    (g : Rng.t) (tr : list Game.Event) (again : bool) (h' : Hand.t) (tb' : Game.Table) :
  Game.hitOrStand inp h d deck g tr = Some (again, h', tb') →
  ∃ dec evs, Game.trace tb' = tr ++ Game.Asked (Hand.owner h) dec :: evs.
Proof.
  destruct inp as [|dec inp]; cbn [Game.hitOrStand]; [discriminate|].
  destruct dec.
  - case_bool_decide as Hbust; intros H.
    + apply (inj Some) in H. injection H as _ _ <-. by eexists _, [].
    + apply hitOrStand_extends in H as [evs ->]. rewrite <- app_assoc. by eexists _, _.
  - intros H. apply (inj Some) in H. injection H as _ _ <-. by eexists _, [].
Qed.

Lemma playerTurn_asks (fuel : nat) (h d : Hand.t) (tb : Game.Table)
    (h' : Hand.t) (tb' : Game.Table) :
  Game.playerTurn fuel h d tb = Some (h', tb') →
  ∃ dec evs, Game.trace tb' = Game.trace tb ++ Game.Asked (Hand.owner h) dec :: evs.
Proof.
  rewrite playerTurn_fuel. cbn [Game.playerTurn].
  destruct (Game.hitOrStand _ _ _ _ _ _) as [[[again h1] tb1]|] eqn:E; [|discriminate].
  pose proof (hitOrStand_false _ _ _ _ _ _ _ _ _ E) as ->.
  intros H. apply (inj Some) in H. injection H as _ <-.
  by apply hitOrStand_asks in E.
Qed.

Lemma turns_None (fuel : nat) (idx : list nat) :
  fold_left (Game.turnOf fuel) idx None = None.
Proof. induction idx as [|i idx IH]; [reflexivity|exact IH]. Qed.

Lemma turnOf_keeps_events (fuel : nat) (hs : list Hand.t) (tb : Game.Table) (i : nat)
    (hs' : list Hand.t) (tb' : Game.Table) (e : Game.Event) :
  Game.turnOf fuel (Some (hs, tb)) i = Some (hs', tb') →
  e ∈ Game.trace tb → e ∈ Game.trace tb'.
Proof.
  unfold Game.turnOf. destruct (_ && _).
  - destruct (Game.playerTurn _ _ _ _) as [[h1 tb1]|] eqn:E; [|discriminate].
    intros H. apply (inj Some) in H. injection H as _ <-.
    apply playerTurn_asks in E as (dec & evs & ->). intros He.
    apply elem_of_app. by left.
  - intros H. apply (inj Some) in H. injection H as _ <-. done.
Qed.

Lemma turns_keep_events (fuel : nat) (idx : list nat) : ∀ hs tb hs' tb' e,
  fold_left (Game.turnOf fuel) idx (Some (hs, tb)) = Some (hs', tb') →
  e ∈ Game.trace tb → e ∈ Game.trace tb'.
Proof.
  induction idx as [|i idx IH]; intros hs tb hs' tb' e; cbn [fold_left].
  - intros H. apply (inj Some) in H. injection H as _ <-. done.
  - destruct (Game.turnOf fuel (Some (hs, tb)) i) as [[hs1 tb1]|] eqn:E.
    + intros H He. apply (IH _ _ _ _ _ H). by apply (turnOf_keeps_events _ _ _ _ _ _ _ E).
    + rewrite turns_None. discriminate.
Qed.

Lemma turns_before (fuel : nat) (i : nat) (idx : list nat) : ∀ hs tb hs' tb',
  i ∉ idx →
  fold_left (Game.turnOf fuel) idx (Some (hs, tb)) = Some (hs', tb') →
  hs' !!! i = hs !!! i.
Proof.
  induction idx as [|j idx IH]; intros hs tb hs' tb' Hi; cbn [fold_left].
  - intros H. apply (inj Some) in H. by injection H as <- _.
  - apply not_elem_of_cons in Hi as [Hij Hi].
    destruct (Game.turnOf fuel (Some (hs, tb)) j) as [[hs1 tb1]|] eqn:E.
    + intros H. rewrite (IH _ _ _ _ Hi H). revert E. unfold Game.turnOf.
      destruct (_ && _).
      * destruct (Game.playerTurn _ _ _ _) as [[h1 tb2]|]; [|discriminate].
        intros E. apply (inj Some) in E. injection E as <- _.
        by rewrite list_lookup_total_insert_ne.
      * intros E. apply (inj Some) in E. by injection E as <- _.
    + rewrite turns_None. discriminate.
Qed.

(** Every player whose hand is not a natural is prompted in the players'
    turns. *)
Lemma playersTurns_asks (fuel : nat) (hands : list Hand.t) (tb : Game.Table)
    (hands' : list Hand.t) (tb' : Game.Table) (i : nat) :
  Game.playersTurns fuel hands tb = Some (hands', tb') →
  (i < length hands)%nat →
  Hand.owner (hands !!! i) ≠ "Dealer" →
  Game.isBlackjack (hands !!! i) = false →
  ∃ dec, Game.Asked (Hand.owner (hands !!! i)) dec ∈ Game.trace tb'.
Proof.
  unfold Game.playersTurns. intros H Hi Ho Hn.
  replace (length hands) with (i + S (length hands - S i))%nat in H by lia.
  rewrite seq_app, fold_left_app in H. cbn [seq fold_left] in H.
  destruct (fold_left (Game.turnOf fuel) (seq 0 i) (Some (hands, tb)))
    as [[hs1 tb1]|] eqn:E1; [|by rewrite turns_None in H].
  apply (turns_before fuel i) in E1; [|intros Hin%elem_of_seq; lia].
  destruct (Game.turnOf fuel (Some (hs1, tb1)) (0 + i)) as [[hs2 tb2]|] eqn:E2;
    [|by rewrite turns_None in H].
  revert E2. unfold Game.turnOf. cbn [Nat.add]. rewrite E1, Hn.
  rewrite bool_decide_eq_true_2 by exact Ho. cbn [andb negb].
  destruct (Game.playerTurn _ _ _ _) as [[h1 tb3]|] eqn:E3; [|discriminate].
  intros E2. apply (inj Some) in E2. injection E2 as _ <-.
  apply playerTurn_asks in E3 as (dec & evs & E3).
  exists dec. apply (turns_keep_events _ _ _ _ _ _ _ H).
  rewrite E3. apply elem_of_app. right. by left.
Qed.

Lemma player_owner (n : Z) (deck : Shoe.t) (g : Rng.t) (i : nat) :
  (i < Z.to_nat n)%nat →
  Hand.owner ((Game.dealCards (Game.initializeGameHands n) deck g).1.1 !!! i)
  = "Player " +:+ pretty (Z.of_nat i + 1).
Proof.
  intros Hi.
  pose proof (dealCards_owners (Game.initializeGameHands n) deck g) as Ho.
  pose proof (dealt_length n deck g) as Hl.
  apply (f_equal (λ l, l !! i)) in Ho. rewrite !list_lookup_fmap in Ho.
  rewrite (list_lookup_lookup_total_lt _ i) in Ho by lia.
  unfold Game.initializeGameHands in Ho at 2.
  rewrite lookup_app_l in Ho by (rewrite length_map, length_seq; lia).
  change (map ?f ?l) with (f <$> l) in Ho.
  rewrite list_lookup_fmap, lookup_seq_lt in Ho by lia.
  simpl in Ho. by injection Ho.
Qed.

Lemma playRound_natural_asks (fuel : nat) (deck : Shoe.t) (n : Z) (stats : GameStats.t)
    (g : Rng.t) (inp : list Game.Decision) (r : Game.Round) (i j : nat) :
  length (GameStats.playerBlackjack stats) = Z.to_nat n →
  Game.isBlackjack (Game.back (Game.dealCards (Game.initializeGameHands n) deck g).1.1)
  = true →
  (i < Z.to_nat n)%nat →
  Game.isBlackjack ((Game.dealCards (Game.initializeGameHands n) deck g).1.1 !!! i)
  = true →
  (j < Z.to_nat n)%nat →
  Game.isBlackjack ((Game.dealCards (Game.initializeGameHands n) deck g).1.1 !!! j)
  = false →
  Game.playRound fuel deck n stats g inp = Some r →
  ∃ dec, Game.Asked ("Player " +:+ pretty (Z.of_nat j + 1)) dec
         ∈ Game.trace (Game.table r).
Proof.
  intros Hlen Hd Hi Hnat Hj Hnot. rewrite playRound_unfold. cbv zeta.
  pose proof (dealt_length n deck g) as Hl.
  pose proof (dealt_back_owner n deck g) as Ho.
  pose proof (player_owner n deck g j Hj) as Hoj.
  set (dealtOut := Game.dealCards (Game.initializeGameHands n) deck g) in *.
  rewrite (shouldEndRoundEarly_false dealtOut.1.1 stats n i) by (lia || exact Hnat).
  cbn [negb].
  pose proof (playersTurns_inv fuel dealtOut.1.1
                (Game.mkTable dealtOut.1.2 dealtOut.2 inp []) Ho eq_refl) as Hinv.
  destruct (Game.playersTurns _ _ _) as [[hands2 tb2]|] eqn:Eturns;
    [|intros H; discriminate H].
  destruct Hinv as (_ & Hb & _).
  apply isBlackjack_score in Hd as [_ Hs].
  rewrite Hb, dealerTurn_stands by (rewrite Hs; unfold BLACKJACK, DEALER_STAND; lia).
  intros H. apply (inj Some) in H. rewrite <- H. cbn [Game.table Game.trace].
  rewrite <- Hoj.
  apply (playersTurns_asks _ _ _ _ _ _ Eturns); [lia| |exact Hnot].
  rewrite Hoj. simpl. discriminate.
Qed.

(** C2 (as the code has it).  In every round in which the dealer holds a
    natural after the initial deal: if no player holds a natural the round
    is settled early, that is, with any fuel [playRound] returns, no
    hit/stand decision is read and the hands shown and the shoe are those
    of the deal; in any case the dealer draws no further card, and the
    only events of the round are hit/stand prompts; if some player holds a
    natural too, [shouldEndRoundEarly] answers [false], the players' turns
    are run and every player without a natural is prompted. *)
Theorem dealer_natural_round (fuel : nat) (deck : Shoe.t) (numPlayers : Z)
    (stats : GameStats.t) (g : Rng.t) (inp : list Game.Decision) :
  let dealtOut := Game.dealCards (Game.initializeGameHands numPlayers) deck g in
  let hands := dealtOut.1.1 in
  length (GameStats.playerBlackjack stats) = Z.to_nat numPlayers →
  Game.isBlackjack (Game.back hands) = true →
  ((∀ i : nat, (i < Z.to_nat numPlayers)%nat →
               Game.isBlackjack (hands !!! i) = false) →
   ∃ r, Game.playRound fuel deck numPlayers stats g inp = Some r
        ∧ Game.revealed r = hands
        ∧ Game.drawnFrom r = dealtOut.1.2
        ∧ Game.trace (Game.table r) = []
        ∧ Game.input (Game.table r) = inp)
  ∧ (∀ r, Game.playRound fuel deck numPlayers stats g inp = Some r →
          Game.back (Game.revealed r) = Game.back hands
          ∧ forallb isAsked (Game.trace (Game.table r)) = true)
  ∧ (∀ i : nat, (i < Z.to_nat numPlayers)%nat →
          Game.isBlackjack (hands !!! i) = true →
          Game.shouldEndRoundEarly (Game.checkBlackjack hands stats numPlayers)
          = false
          ∧ ∀ (r : Game.Round) (j : nat),
              Game.playRound fuel deck numPlayers stats g inp = Some r →
              (j < Z.to_nat numPlayers)%nat →
              Game.isBlackjack (hands !!! j) = false →
              ∃ dec, Game.Asked ("Player " +:+ pretty (Z.of_nat j + 1)) dec
                     ∈ Game.trace (Game.table r)).
Proof.
  intros dealtOut hands Hlen Hd.
  pose proof (dealt_length numPlayers deck g) as Hl. fold dealtOut hands in Hl.
  split; [|split].
  - intros Hp. rewrite playRound_unfold. cbv zeta. fold dealtOut hands.
    rewrite shouldEndRoundEarly_true; [|exact Hd|lia|intros i Hi; apply Hp; lia].
    cbn [negb]. eexists. split; [reflexivity|].
    cbn [Game.revealed Game.drawnFrom Game.table Game.trace Game.input Game.deck].
    repeat split; reflexivity.
  - intros r Hr.
    destruct (playRound_natural fuel deck numPlayers stats g inp r Hd Hr)
      as (Hb & _ & Ht & _).
    split; [exact Hb|exact Ht].
  - intros i Hi Hp. split.
    + apply (shouldEndRoundEarly_false hands stats numPlayers i); [lia|lia|exact Hp].
    + intros r j Hr Hj Hnot.
      exact (playRound_natural_asks fuel deck numPlayers stats g inp r i j
               Hlen Hd Hi Hp Hj Hnot Hr).
Qed.

Lemma dealer_natural_round_witness :
  (∃ r, Game.playRound 0 (Shoe.new naturalRng).1 1 (GameStats.new 1)
                       (Shoe.new naturalRng).2 [] = Some r
        ∧ Game.trace (Game.table r) = []
        ∧ Game.input (Game.table r) = [])
  ∧ (∃ dec, Game.Asked ("Player " +:+ pretty (Z.of_nat 1 + 1)) dec
            ∈ Game.trace
                (Game.table (roundOf (Game.firstRound 0 twoNaturalsRng 2 [Game.Stand])))).
Proof.
  split.
  - destruct (dealer_natural_round 0 (Shoe.new naturalRng).1 1 (GameStats.new 1)
                (Shoe.new naturalRng).2 []) as [Ha _].
    + vm_compute. reflexivity.
    + vm_compute. reflexivity.
    + destruct Ha as (r & Hr & _ & _ & Ht & Hi).
      * intros i Hi. destruct i as [|i]; [vm_compute; reflexivity|]. simpl in Hi. lia.
      * exists r. split; [exact Hr|]. split; [exact Ht|exact Hi].
  - destruct (dealer_natural_round 0 (Shoe.new twoNaturalsRng).1 2 (GameStats.new 2)
                (Shoe.new twoNaturalsRng).2 [Game.Stand]) as (_ & _ & Hc).
    + vm_compute. reflexivity.
    + vm_compute. reflexivity.
    + destruct (Hc 0%nat) as [_ Hask].
      * simpl. lia.
      * vm_compute. reflexivity.
      * apply (Hask (roundOf (Game.firstRound 0 twoNaturalsRng 2 [Game.Stand])) 1%nat).
        -- vm_compute. reflexivity.
        -- simpl. lia.
        -- vm_compute. reflexivity.
Defined.

(** C2, as stated, fails: in the first round of a game with two players
    in which player 1 and the dealer are dealt A K and player 2 T 9, the
    dealer holds a natural and player 2 is asked to hit or stand. *)
Lemma dealer_natural_player_still_asked :
  let r := roundOf (Game.firstRound 0 twoNaturalsRng 2 [Game.Stand]) in
  Game.firstRound 0 twoNaturalsRng 2 [Game.Stand] = Some r
  ∧ Game.isBlackjack (Game.back (Game.revealed r)) = true
  ∧ Game.isBlackjack (Game.revealed r !!! 0%nat) = true
  ∧ Game.trace (Game.table r) = [Game.Asked "Player 2" Game.Stand].
Proof. vm_compute. repeat split; reflexivity. Qed.

(** ** Counting outcomes *)

Lemma fold_seq_view {S X : Type} (f : S → nat → S) (V : S → X) (I : S → Prop)
    (u : X → X) (i : nat) :
  (∀ st j, I st → I (f st j)) →
  (∀ st j, I st → j ≠ i → V (f st j) = V st) →
  (∀ st, I st → V (f st i) = u (V st)) →
  ∀ k st, I st →
    I (fold_left f (seq 0 k) st)
    ∧ V (fold_left f (seq 0 k) st) = if decide (i < k)%nat then u (V st) else V st.
Proof.
  intros HI Hne Heq. induction k as [|k IH]; intros st Hst.
  - cbn [seq fold_left]. split; [exact Hst|]. case_decide; [lia|reflexivity].
  - rewrite seq_S, fold_left_app. cbn [fold_left Nat.add].
    destruct (IH st Hst) as [IH1 IH2]. split; [by apply HI|].
    destruct (decide (k = i)) as [->|Hk].
    + rewrite Heq by exact IH1. rewrite IH2.
      rewrite decide_False by lia. by rewrite decide_True by lia.
    + rewrite Hne by done. rewrite IH2.
      repeat case_decide; try reflexivity; lia.
Qed.

Lemma incr_lookup_eq (l : list Z) (i : nat) :
  (i < length l)%nat → GameStats.incr i l !!! i = l !!! i + 1.
Proof.
  intros Hi. unfold GameStats.incr.
  rewrite list_lookup_total_alter_eq by done. lia.
Qed.

Lemma incr_lookup_ne (l : list Z) (i j : nat) :
  j ≠ i → GameStats.incr j l !!! i = l !!! i.
Proof. intros Hi. unfold GameStats.incr. by rewrite list_lookup_total_alter_ne. Qed.

Lemma incr_length (l : list Z) (i : nat) : length (GameStats.incr i l) = length l.
Proof. apply length_alter. Qed.

Ltac view_simpl :=
  unfold view, sized in *;
  cbn [GameStats.playerWins GameStats.playerLosses GameStats.playerTies
       GameStats.playerBlackjack GameStats.incrWins GameStats.incrLosses
       GameStats.incrTies GameStats.incrBlackjacks GameStats.incrDealerWins
       GameStats.incrDealerBlackjacks GameStats.incrTotalRounds
       GameStats.setPlayerBlackjack GameStats.setDealerBlackjack fst snd] in *;
  rewrite ?incr_length, ?length_insert in *.

Lemma compareHands_sized (p d : Hand.t) (st : GameStats.t) (i j : nat) :
  sized i st → sized i (Game.compareHands p d st j).
Proof.
  intros Hs. unfold Game.compareHands.
  repeat (match goal with |- context [if ?b then _ else _] => destruct b end);
    view_simpl; exact Hs.
Qed.

Lemma compareHands_view_ne (p d : Hand.t) (st : GameStats.t) (i j : nat) :
  j ≠ i → view (Game.compareHands p d st j) i = view st i.
Proof.
  intros Hne. unfold Game.compareHands.
  repeat (match goal with |- context [if ?b then _ else _] => destruct b end);
    view_simpl; rewrite ?incr_lookup_ne by done; reflexivity.
Qed.

Lemma settle_step_view (hands : list Hand.t) (i : nat) (st : GameStats.t) :
  sized i st →
  view (if (GameStats.playerBlackjack st !!! i : bool) then
          if negb (Game.isBlackjack (Game.back hands))
          then GameStats.incrBlackjacks i (GameStats.incrWins i st)
          else GameStats.incrTies i st
        else Game.compareHands (hands !!! i) (Game.back hands) st i) i
  = settled hands i (view st i).
Proof.
  intros (H1 & H2 & H3 & H4). unfold settled, view at 2.
  destruct (GameStats.playerBlackjack st !!! i) eqn:Hfl.
  - destruct (negb _); view_simpl; rewrite ?incr_lookup_eq, ?Hfl by done; reflexivity.
  - unfold Game.compareHands.
    repeat (match goal with |- context [if ?b then _ else _] => destruct b end);
      view_simpl; rewrite ?incr_lookup_eq, ?Hfl by done; reflexivity.
Qed.

(** What [determineWinner] does to the entry of player [i]. *)
Lemma determineWinner_view (hands : list Hand.t) (st : GameStats.t) (n : Z)
    (i : nat) :
  sized i st →
  view (Game.determineWinner hands st n) i
  = let v := if decide (i < length hands - 1)%nat
             then settled hands i (view st i) else view st i in
    if Game.isBusted (Game.back hands) then
      if decide (i < length hands - 1)%nat then credited hands i v else v
    else v.
Proof.
  intros Hs. unfold Game.determineWinner.
  change (view (GameStats.incrTotalRounds ?s) i) with (view s i).
  (* the dealer's own counters *)
  match goal with |- context [fold_left _ _ (if ?b then ?x else ?y)] =>
    assert (H1 : sized i (if b then x else y) ∧ view (if b then x else y) i = view st i)
      by (repeat (match goal with |- context [if ?c then _ else _] => destruct c end);
          split; view_simpl; first [exact Hs | reflexivity]);
    destruct H1 as [Hs1 Hv1]; revert Hs1 Hv1; generalize (if b then x else y);
    intros st1 Hs1 Hv1
  end.
  (* the settlement loop *)
  match goal with |- context [if _ then fold_left _ _ (_ (fold_left ?f ?l st1)) else _] =>
    destruct (fold_seq_view f (λ s, view s i) (sized i) (settled hands i) i) with
      (k := (length hands - 1)%nat) (st := st1) as [Hs2 Hv2];
    [ intros s j Hsj; cbn beta;
      destruct (_ !!! _ : bool); [destruct (negb _); view_simpl; exact Hsj|];
      by apply compareHands_sized
    | intros s j Hsj Hne; cbn beta;
      destruct (_ !!! _ : bool);
      [destruct (negb _); view_simpl; rewrite ?incr_lookup_ne by done; reflexivity|];
      by apply compareHands_view_ne
    | intros s Hsj; by apply settle_step_view
    | exact Hs1
    | revert Hs2 Hv2; generalize (fold_left f l st1); intros st2 Hs2 Hv2 ]
  end.
  rewrite Hv1 in Hv2. cbv zeta. rewrite <- Hv2.
  destruct (Game.isBusted (Game.back hands)); [|reflexivity].
  (* the loop after a dealer's bust *)
  match goal with |- context [fold_left ?f ?l (GameStats.incrDealerWins st2)] =>
    destruct (fold_seq_view f (λ s, view s i) (sized i) (credited hands i) i) with
      (k := (length hands - 1)%nat) (st := GameStats.incrDealerWins st2) as [_ Hv3];
    [ intros s j Hsj; cbn beta; destruct (_ && _); view_simpl; exact Hsj
    | intros s j Hsj Hne; cbn beta; destruct (_ && _); view_simpl;
      rewrite ?incr_lookup_ne by done; reflexivity
    | intros s (? & ? & ? & ?); cbn beta; unfold credited, view at 2;
      destruct (_ && _); view_simpl; rewrite ?incr_lookup_eq by done; reflexivity
    | view_simpl; exact Hs2
    | ]
  end.
  exact Hv3.
Qed.

(** Settling a round whose dealer holds no natural counts exactly one
    outcome for every player, once, provided the player's flag says
    whether the hand is a natural. *)
Lemma settlement_one_outcome (hands : list Hand.t) (st : GameStats.t) (n : Z)
    (i : nat) :
  Game.isBlackjack (Game.back hands) = false →
  (i < length hands - 1)%nat →
  sized i st →
  GameStats.playerBlackjack st !!! i = Game.isBlackjack (hands !!! i) →
  oneOutcome (view st i) (view (Game.determineWinner hands st n) i).
Proof.
  intros Hd Hi Hs Hfl. rewrite determineWinner_view by exact Hs. cbv zeta.
  rewrite !decide_True by exact Hi.
  unfold settled, credited, view, oneOutcome. rewrite Hfl, Hd.
  unfold Game.isBusted, BLACKJACK.
  destruct (Game.isBlackjack (hands !!! i)); cbn [negb andb].
  - repeat case_bool_decide; cbn [negb andb]; lia.
  - repeat case_bool_decide; cbn [negb andb]; lia.
Qed.

(** What [checkBlackjack] does to the entry of player [i]. *)
Lemma checkBlackjack_view (hands : list Hand.t) (st : GameStats.t) (n : Z)
    (i : nat) :
  sized i st → (i < length hands - 1)%nat →
  sized i (Game.checkBlackjack hands st n)
  ∧ view (Game.checkBlackjack hands st n) i = checked hands i (view st i).
Proof.
  intros Hs Hi. unfold Game.checkBlackjack, checked.
  set (st0 := GameStats.setDealerBlackjack _ st).
  assert (Hs0 : sized i st0) by exact Hs.
  assert (Hv0 : view st0 i = view st i) by reflexivity.
  change (GameStats.dealerBlackjack st0) with (Game.isBlackjack (Game.back hands)).
  clearbody st0.
  destruct (Game.isBlackjack (Game.back hands)).
  - match goal with |- context [fold_left ?f ?idx (st0, false)] =>
      destruct (fold_seq_view f (λ p, view p.1 i) (λ p, sized i p.1)
                  (λ '(w, lo, t, _),
                     if Game.isBlackjack (hands !!! i)
                     then (w, lo, t + 1, true) else (w, lo + 1, t, false)) i)
        with (k := (length hands - 1)%nat) (st := (st0, false)) as [Hs1 Hv1];
      [ intros [s b] j Hsj; cbn beta iota; destruct (Game.isBlackjack _);
        cbn [fst]; view_simpl; rewrite ?length_insert; exact Hsj
      | intros [s b] j Hsj Hne; cbn beta iota; destruct (Game.isBlackjack _);
        cbn [fst]; view_simpl; cbn [GameStats.setPlayerBlackjack GameStats.playerWins
          GameStats.playerLosses GameStats.playerTies GameStats.playerBlackjack];
        rewrite ?incr_lookup_ne, ?list_lookup_total_insert_ne by done; reflexivity
      | intros [s b] (? & ? & ? & ?); cbn beta iota; unfold view at 2;
        destruct (Game.isBlackjack _); cbn [fst]; view_simpl;
        cbn [GameStats.setPlayerBlackjack GameStats.playerWins
          GameStats.playerLosses GameStats.playerTies GameStats.playerBlackjack];
        rewrite ?incr_lookup_eq, ?list_lookup_total_insert_eq by done; reflexivity
      | exact Hs0
      | destruct (fold_left f idx (st0, false)) as [s1 b1] ]
    end.
    cbn [fst] in *. rewrite decide_True in Hv1 by exact Hi. rewrite Hv0 in Hv1.
    assert (sized i (if negb b1 then GameStats.incrDealerWins s1 else s1)
            ∧ view (if negb b1 then GameStats.incrDealerWins s1 else s1) i = view s1 i)
      as [H1 H2] by (destruct b1; split; first [exact Hs1 | reflexivity]).
    split; [exact H1|]. rewrite H2, Hv1.
    destruct (view st i) as [[[w l] t] fl]. by destruct (Game.isBlackjack _).
  - match goal with |- context [fold_left ?f ?idx st0] =>
      destruct (fold_seq_view f (λ s, view s i) (sized i)
                  (λ '(w, lo, t, _), (w, lo, t, Game.isBlackjack (hands !!! i))) i)
        with (k := (length hands - 1)%nat) (st := st0) as [Hs1 Hv1];
      [ intros s j Hsj; view_simpl; cbn [GameStats.setPlayerBlackjack
          GameStats.playerWins GameStats.playerLosses GameStats.playerTies
          GameStats.playerBlackjack]; rewrite ?length_insert; exact Hsj
      | intros s j Hsj Hne; view_simpl; cbn [GameStats.setPlayerBlackjack
          GameStats.playerWins GameStats.playerLosses GameStats.playerTies
          GameStats.playerBlackjack];
        rewrite ?list_lookup_total_insert_ne by done; reflexivity
      | intros s (? & ? & ? & ?); unfold view; cbn [GameStats.setPlayerBlackjack
          GameStats.playerWins GameStats.playerLosses GameStats.playerTies
          GameStats.playerBlackjack];
        rewrite ?list_lookup_total_insert_eq by done; reflexivity
      | exact Hs0 | ]
    end.
    split; [exact Hs1|]. rewrite Hv1, decide_True by exact Hi. rewrite Hv0.
    by destruct (view st i) as [[[w l] t] fl].
Qed.

(** Settling against a dealer's natural counts exactly one outcome for
    every player as well ... *)
Lemma settlement_dealer_natural (hands : list Hand.t) (st : GameStats.t) (n : Z)
    (i : nat) :
  Game.isBlackjack (Game.back hands) = true →
  (i < length hands - 1)%nat →
  sized i st →
  oneOutcome (view st i) (view (Game.determineWinner hands st n) i).
Proof.
  intros Hd Hi Hs. rewrite determineWinner_view by exact Hs. cbv zeta.
  rewrite !decide_True by exact Hi.
  pose proof (isBlackjack_score _ Hd) as [_ Hds].
  unfold settled, credited, view, oneOutcome. rewrite Hd.
  unfold Game.isBusted, BLACKJACK in *. rewrite Hds.
  destruct (GameStats.playerBlackjack st !!! i);
    destruct (Game.isBlackjack (hands !!! i)); cbn [negb andb];
    repeat case_bool_decide; cbn [negb andb]; lia.
Qed.

(** ... on top of the outcome [checkBlackjack] has counted already: every
    round that returns and in which the dealer was dealt a natural counts
    two outcomes for every player. *)
Lemma dealer_natural_counted_twice (fuel : nat) (deck : Shoe.t) (n : Z)
    (stats : GameStats.t) (g : Rng.t) (inp : list Game.Decision)
    (r : Game.Round) (i : nat) :
  sized i stats → (i < Z.to_nat n)%nat →
  Game.isBlackjack (Game.back (Game.dealCards (Game.initializeGameHands n) deck g).1.1)
  = true →
  Game.playRound fuel deck n stats g inp = Some r →
  tally (view (Game.stats r) i) = tally (view stats i) + 2.
Proof.
  intros Hs Hi Hd Hr.
  destruct (playRound_natural fuel deck n stats g inp r Hd Hr) as (Hb & Hl & _ & ->).
  pose proof (dealt_length n deck g) as Hlen.
  set (hands := (Game.dealCards (Game.initializeGameHands n) deck g).1.1) in *.
  destruct (checkBlackjack_view hands stats n i Hs ltac:(lia)) as [Hs1 Hv1].
  pose proof (settlement_dealer_natural (Game.revealed r)
                (Game.checkBlackjack hands stats n) n i
                ltac:(by rewrite Hb) ltac:(lia) Hs1) as Ho.
  rewrite Hv1 in Ho. unfold checked in Ho. rewrite Hd in Ho.
  unfold oneOutcome, tally in *.
  destruct (view stats i) as [[[w l] t] fl].
  destruct (view (Game.determineWinner _ _ _) i) as [[[w' l'] t'] fl'].
  cbn [fst snd]. destruct (Game.isBlackjack (hands !!! i)); lia.
Qed.

(** ** Rounds without a dealer's natural *)

Lemma hitOrStand_grows (inp : list Game.Decision) : ∀ h d deck g tr again h' tb',
  Game.hitOrStand inp h d deck g tr = Some (again, h', tb') →
  shoe_ok deck →
  shoe_ok (Game.deck tb')
  ∧ Hand.numCards h ≤ Hand.numCards h'
  ∧ (Hand.numCards h < Hand.MAX_HAND_SIZE - 1 →
     h' = h ∨ Hand.numCards h < Hand.numCards h').
Proof.
  induction inp as [|dec inp IH]; intros h d deck g tr again h' tb';
    cbn [Game.hitOrStand]; [discriminate|].
  destruct dec.
  - intros H Hok.
    destruct (drawCardFromShoe_shoe_ok deck g Hok) as [Hok' Hne].
    pose proof (addCardToHand_mono h (Shoe.drawn (Shoe.drawCardFromShoe deck g))) as Hm.
    pose proof (addCardToHand_grows h _ Hne) as Hg.
    revert H. case_bool_decide as Hbust; intros H.
    + apply (inj Some) in H. injection H as _ <- <-. cbn [Game.deck].
      split; [exact Hok'|]. split; [exact Hm|]. intros Hn. right. rewrite Hg by done. lia.
    + apply IH in H as (H1 & H2 & H3); [|exact Hok'].
      split; [exact H1|]. split; [lia|]. intros Hn. right. rewrite Hg in H2 by done. lia.
  - intros H Hok. apply (inj Some) in H. injection H as _ <- <-. cbn [Game.deck].
    split; [exact Hok|]. split; [lia|by left].
Qed.

Lemma playerTurn_grows (fuel : nat) (h d : Hand.t) (tb : Game.Table)
    (h' : Hand.t) (tb' : Game.Table) :
  Game.playerTurn fuel h d tb = Some (h', tb') →
  shoe_ok (Game.deck tb) →
  shoe_ok (Game.deck tb')
  ∧ Hand.numCards h ≤ Hand.numCards h'
  ∧ (Hand.numCards h < Hand.MAX_HAND_SIZE - 1 →
     h' = h ∨ Hand.numCards h < Hand.numCards h').
Proof.
  rewrite playerTurn_fuel. cbn [Game.playerTurn].
  destruct (Game.hitOrStand _ _ _ _ _ _) as [[[again h1] tb1]|] eqn:E; [|discriminate].
  pose proof (hitOrStand_false _ _ _ _ _ _ _ _ _ E) as ->.
  intros H Hok. apply (inj Some) in H. injection H as <- <-.
  exact (hitOrStand_grows _ _ _ _ _ _ _ _ _ E Hok).
Qed.

Lemma turnOf_grow (fuel : nat) (hands : list Hand.t)
    (st : option (list Hand.t * Game.Table)) (i : nat) :
  (∀ j : nat, Hand.numCards (hands !!! j) < Hand.MAX_HAND_SIZE - 1) →
  turns_grow hands st → turns_grow hands (Game.turnOf fuel st i).
Proof.
  intros Hsmall. destruct st as [[hs tb]|]; [|exact id]. intros (Hok & Hlen & Hg).
  unfold Game.turnOf. destruct (_ && _) eqn:Hc; [|exact (conj Hok (conj Hlen Hg))].
  apply andb_true_iff in Hc as [_ Hc]. apply negb_true_iff in Hc.
  destruct (Game.playerTurn fuel (hs !!! i) (Game.back hs) tb) as [[h' tb']|] eqn:E;
    [|exact I].
  apply playerTurn_grows in E as (E1 & E2 & E3); [|exact Hok].
  split; [exact E1|]. split; [by rewrite length_insert|].
  intros j. destruct (decide (i = j ∧ i < length hs)%nat) as [[<- Hi]|Hne].
  - rewrite list_lookup_total_insert_eq by exact Hi.
    destruct (Hg i) as [G1 G2]. split.
    + intros Hnat. rewrite (G1 Hnat), Hnat in Hc. discriminate Hc.
    + destruct G2 as [G2|G2].
      * rewrite G2 in E2, E3. specialize (Hsmall i).
        destruct (E3 Hsmall) as [->|?]; [by left|by right].
      * right. lia.
  - assert (<[i := h']> hs !!! j = hs !!! j) as ->; [|apply Hg].
    destruct (decide (i = j)) as [<-|Hij].
    + rewrite list_insert_ge by lia. reflexivity.
    + by rewrite list_lookup_total_insert_ne.
Qed.

Lemma playersTurns_grow (fuel : nat) (hands : list Hand.t) (tb : Game.Table) :
  (∀ j : nat, Hand.numCards (hands !!! j) < Hand.MAX_HAND_SIZE - 1) →
  shoe_ok (Game.deck tb) →
  turns_grow hands (Game.playersTurns fuel hands tb).
Proof.
  intros Hsmall Hok. unfold Game.playersTurns.
  apply (fold_left_inv (turns_grow hands)).
  - intros st i. by apply turnOf_grow.
  - split; [exact Hok|]. split; [reflexivity|]. intros j. split; [done|by left].
Qed.

(** The deal gives every hand two cards. *)

Lemma drawFromShoe_grows (h : Hand.t) (deck : Shoe.t) (g : Rng.t) :
  shoe_ok deck →
  shoe_ok (Game.drawFromShoe h deck g).1.2
  ∧ Hand.numCards (Game.drawFromShoe h deck g).1.1
    = if decide (Hand.numCards h < Hand.MAX_HAND_SIZE - 1)
      then Hand.numCards h + 1 else Hand.numCards h.
Proof.
  intros Hok. unfold Game.drawFromShoe.
  destruct (drawCardFromShoe_shoe_ok deck g Hok) as [Hok' [Hr Hs]].
  rewrite !bool_decide_eq_true_2 by done. cbn [andb fst snd].
  split; [exact Hok'|]. case_decide.
  - by apply addCardToHand_grows.
  - by rewrite addCardToHand_full by lia.
Qed.

Lemma dealOne_round (hands : list Hand.t) (deck : Shoe.t) (g : Rng.t) (i : nat) :
  shoe_ok deck → (i < length hands)%nat →
  let st := fold_left Game.dealOne (seq 0 (length hands)) (hands, deck, g) in
  shoe_ok st.1.2 ∧ length st.1.1 = length hands
  ∧ Hand.numCards (st.1.1 !!! i)
    = if decide (Hand.numCards (hands !!! i) < Hand.MAX_HAND_SIZE - 1)
      then Hand.numCards (hands !!! i) + 1 else Hand.numCards (hands !!! i).
Proof.
  intros Hok Hi st.
  destruct (fold_seq_view Game.dealOne (λ st, Hand.numCards (st.1.1 !!! i))
              (λ st, shoe_ok st.1.2 ∧ length st.1.1 = length hands)
              (λ v, if decide (v < Hand.MAX_HAND_SIZE - 1) then v + 1 else v) i)
    with (k := length hands) (st := (hands, deck, g)) as [[H1 H2] H3].
  - intros [[hs d] g0] j [Hd Hl]. unfold Game.dealOne. cbn [fst snd] in *.
    destruct (drawFromShoe_grows (hs !!! j) d g0 Hd) as [Hd' _].
    destruct (Game.drawFromShoe (hs !!! j) d g0) as [[h' d'] g']. cbn [fst snd] in *.
    split; [exact Hd'|by rewrite length_insert].
  - intros [[hs d] g0] j [Hd Hl] Hne. unfold Game.dealOne. cbn [fst snd] in *.
    destruct (Game.drawFromShoe (hs !!! j) d g0) as [[h' d'] g']. cbn [fst snd].
    by rewrite list_lookup_total_insert_ne.
  - intros [[hs d] g0] [Hd Hl]. unfold Game.dealOne. cbn [fst snd] in *.
    destruct (drawFromShoe_grows (hs !!! i) d g0 Hd) as [_ Hn].
    destruct (Game.drawFromShoe (hs !!! i) d g0) as [[h' d'] g']. cbn [fst snd] in *.
    rewrite list_lookup_total_insert_eq by lia. exact Hn.
  - split; [exact Hok|reflexivity].
  - fold st in H1, H2, H3. rewrite decide_True in H3 by exact Hi.
    split; [exact H1|]. split; [exact H2|exact H3].
Qed.

Lemma initializeGameHands_empty (n : Z) (i : nat) :
  Hand.numCards (Game.initializeGameHands n !!! i) = 0.
Proof.
  assert (Hall : Forall (λ h, Hand.numCards h = 0) (Game.initializeGameHands n)).
  { unfold Game.initializeGameHands. apply Forall_app. split.
    - induction (seq 0 (Z.to_nat n)) as [|k ks IH]; constructor; [reflexivity|exact IH].
    - by constructor. }
  destruct (Game.initializeGameHands n !! i) as [h|] eqn:E.
  - rewrite (list_lookup_total_correct _ _ _ E).
    exact (Forall_lookup_1 _ _ _ _ Hall E).
  - rewrite list_lookup_total_alt, E. reflexivity.
Qed.

Lemma dealCards_two (n : Z) (deck : Shoe.t) (g : Rng.t) (i : nat) :
  shoe_ok deck → (i < S (Z.to_nat n))%nat →
  shoe_ok (Game.dealCards (Game.initializeGameHands n) deck g).1.2
  ∧ Hand.numCards ((Game.dealCards (Game.initializeGameHands n) deck g).1.1 !!! i) = 2.
Proof.
  intros Hok Hi. unfold Game.dealCards.
  pose proof (initializeGameHands_length n) as Hl.
  pose proof (initializeGameHands_empty n i) as H0.
  revert Hl H0. generalize (Game.initializeGameHands n). intros hands Hl H0.
  change (seq 0 (Z.to_nat STARTING_CARDS)) with [O; 1%nat]. cbn [fold_left].
  destruct (dealOne_round hands deck g i Hok ltac:(lia)) as (A1 & A2 & A3).
  destruct (fold_left Game.dealOne (seq 0 (length hands)) (hands, deck, g))
    as [[hs1 d1] g1]. cbn [fst snd] in *.
  rewrite <- A2.
  destruct (dealOne_round hs1 d1 g1 i A1 ltac:(lia)) as (B1 & B2 & B3).
  split; [exact B1|]. rewrite B3, A3, H0.
  unfold Hand.MAX_HAND_SIZE. repeat case_decide; lia.
Qed.

Lemma back_insert_last (hs : list Hand.t) (h : Hand.t) :
  (0 < length hs)%nat → Game.back (<[(length hs - 1)%nat := h]> hs) = h.
Proof.
  intros Hl. unfold Game.back. rewrite last_lookup, length_insert.
  replace (pred (length hs)) with (length hs - 1)%nat by lia.
  by rewrite list_lookup_insert_eq by lia.
Qed.

Lemma grown_isBlackjack (h h' : Hand.t) :
  Hand.numCards h = 2 → grown h h' → Game.isBlackjack h' = Game.isBlackjack h.
Proof.
  intros Hn [G1 G2]. destruct (Game.isBlackjack h) eqn:E.
  - by rewrite (G1 eq_refl).
  - destruct G2 as [->|G2]; [exact E|].
    unfold Game.isBlackjack. rewrite bool_decide_eq_false_2 by lia. reflexivity.
Qed.

(** Every round that returns and in which the dealer was dealt no natural
    counts exactly one outcome for every player, once. *)
Lemma round_counts_one_outcome (fuel : nat) (deck : Shoe.t) (n : Z)
    (stats : GameStats.t) (g : Rng.t) (inp : list Game.Decision)
    (r : Game.Round) (i : nat) :
  shoe_ok deck → sized i stats → (i < Z.to_nat n)%nat →
  Game.isBlackjack (Game.back (Game.dealCards (Game.initializeGameHands n) deck g).1.1)
  = false →
  Game.playRound fuel deck n stats g inp = Some r →
  oneOutcome (view stats i) (view (Game.stats r) i).
Proof.
  intros Hok Hs Hi Hd. rewrite playRound_unfold. cbv zeta.
  pose proof (dealt_back_owner n deck g) as Ho.
  pose proof (dealt_length n deck g) as Hlen.
  pose proof (λ j, dealCards_two n deck g j Hok) as Htwo.
  set (dealtOut := Game.dealCards (Game.initializeGameHands n) deck g) in *.
  set (hands := dealtOut.1.1) in *.
  destruct (checkBlackjack_view hands stats n i Hs ltac:(lia)) as [Hs1 Hv1].
  destruct (checkBlackjack_flags hands stats n) as [Hdb _].
  unfold checked in Hv1. rewrite Hd in Hv1, Hdb.
  unfold Game.shouldEndRoundEarly at 1. rewrite Hdb. cbn [negb].
  assert (Hsmall : ∀ j : nat, Hand.numCards (hands !!! j) < Hand.MAX_HAND_SIZE - 1).
  { intros j. destruct (decide (j < S (Z.to_nat n))%nat) as [Hj|Hj].
    - destruct (Htwo j Hj) as [_ ->]. done.
    - rewrite list_lookup_total_alt, lookup_ge_None_2 by lia. done. }
  pose proof (playersTurns_grow fuel hands
                (Game.mkTable dealtOut.1.2 dealtOut.2 inp [])
                Hsmall (proj1 (Htwo O ltac:(lia)))) as Hgrow.
  pose proof (playersTurns_inv fuel hands
                (Game.mkTable dealtOut.1.2 dealtOut.2 inp []) Ho eq_refl) as Hinv.
  destruct (Game.playersTurns _ _ _) as [[hands2 tb2]|]; [|intros H; discriminate H].
  destruct Hgrow as (Hok2 & Hlen2 & Hg2). destruct Hinv as (_ & Hb & _).
  destruct (Game.dealerTurn fuel (Game.back hands2) tb2) as [[dh tb3]|] eqn:Edealer;
    [|intros H; discriminate H].
  apply dealerTurn_grows in Edealer as (_ & _ & Hdg); [|exact Hok2].
  rewrite Hb in Hdg.
  assert (Hbacktwo : Hand.numCards (Game.back hands) = 2).
  { rewrite <- back_lookup, Hlen. apply Htwo. simpl. lia. }
  intros H. apply (inj Some) in H. rewrite <- H. cbn [Game.stats].
  set (shown := <[(length hands2 - 1)%nat := dh]> hands2).
  assert (Hdh : Game.isBlackjack (Game.back shown) = false).
  { unfold shown. rewrite back_insert_last by lia.
    destruct (Hdg ltac:(rewrite Hbacktwo; done)) as [->|Hmore]; [exact Hd|].
    unfold Game.isBlackjack. rewrite bool_decide_eq_false_2 by lia. reflexivity. }
  assert (Hpl : Game.isBlackjack (shown !!! i) = Game.isBlackjack (hands !!! i)).
  { unfold shown. rewrite list_lookup_total_insert_ne by lia.
    apply grown_isBlackjack; [|apply Hg2]. apply Htwo. lia. }
  pose proof (settlement_one_outcome shown (Game.checkBlackjack hands stats n) n i
                Hdh ltac:(unfold shown; rewrite length_insert; lia) Hs1) as Hone.
  rewrite Hv1 in Hone.
  destruct (view stats i) as [[[w l] t] fl]. apply Hone.
  rewrite Hpl. unfold view in Hv1. by injection Hv1.
Qed.

(** A round leaves the shoe as the program keeps it, for the next round. *)
Lemma playRound_shoe_ok (fuel : nat) (deck : Shoe.t) (n : Z) (stats : GameStats.t)
    (g : Rng.t) (inp : list Game.Decision) (r : Game.Round) :
  shoe_ok deck →
  Game.playRound fuel deck n stats g inp = Some r →
  shoe_ok (Game.deck (Game.table r)).
Proof.
  intros Hok. rewrite playRound_unfold. cbv zeta.
  pose proof (λ j, dealCards_two n deck g j Hok) as Htwo.
  set (dealtOut := Game.dealCards (Game.initializeGameHands n) deck g) in *.
  assert (Hok1 : shoe_ok dealtOut.1.2) by (apply (Htwo O); lia).
  assert (Hsmall : ∀ j : nat,
            Hand.numCards (dealtOut.1.1 !!! j) < Hand.MAX_HAND_SIZE - 1).
  { intros j. destruct (decide (j < S (Z.to_nat n))%nat) as [Hj|Hj].
    - destruct (Htwo j Hj) as [_ ->]. done.
    - unfold dealtOut.
      rewrite list_lookup_total_alt, lookup_ge_None_2 by (rewrite dealt_length; lia).
      done. }
  destruct (negb _).
  - pose proof (playersTurns_grow fuel dealtOut.1.1
                  (Game.mkTable dealtOut.1.2 dealtOut.2 inp []) Hsmall Hok1) as Hgrow.
    destruct (Game.playersTurns _ _ _) as [[hands2 tb2]|]; [|intros H; discriminate H].
    destruct Hgrow as (Hok2 & _ & _).
    destruct (Game.dealerTurn fuel (Game.back hands2) tb2) as [[dh tb3]|] eqn:Edealer;
      [|intros H; discriminate H].
    apply dealerTurn_grows in Edealer as (Hok3 & _ & _); [|exact Hok2].
    intros H. apply (inj Some) in H. rewrite <- H. cbn [Game.table Game.deck].
    by apply collectCards_shoe_ok.
  - intros H. apply (inj Some) in H. rewrite <- H. cbn [Game.table Game.deck].
    by apply collectCards_shoe_ok.
Qed.

(** The two lemmas at work: the player who stands on K Q against the
    dealer's T 9 has one win after the round; the player dealt T 9 against
    the dealer's A K has two outcomes counted. *)
Example plain_round_counted_once :
  oneOutcome (view (GameStats.new 1) 0)
             (view (Game.stats (roundOf (Game.firstRound 0 plainRng 1 [Game.Stand]))) 0).
Proof.
  apply (round_counts_one_outcome 0 (Shoe.new plainRng).1 1 (GameStats.new 1)
           (Shoe.new plainRng).2 [Game.Stand]).
  - apply new_shoe_ok.
  - vm_compute. repeat split; lia.
  - vm_compute. lia.
  - vm_compute. reflexivity.
  - vm_compute. reflexivity.
Qed.

Example natural_round_counted_twice :
  tally (view (Game.stats (roundOf (Game.firstRound 0 naturalRng 1 []))) 0)
  = tally (view (GameStats.new 1) 0) + 2.
Proof.
  apply (dealer_natural_counted_twice 0 (Shoe.new naturalRng).1 1 (GameStats.new 1)
           (Shoe.new naturalRng).2 []).
  - vm_compute. repeat split; lia.
  - vm_compute. lia.
  - vm_compute. reflexivity.
  - vm_compute. reflexivity.
Qed.

(** C1 (as the code has it).  In the first round of a game with one
    player who is dealt T 9 against the dealer's A K, [checkBlackjack]
    counts the player's loss and [determineWinner], through
    [compareHands], counts it again: after one round the player has two
    losses.  In the round of two players with A K and T 9 against the
    dealer's A K, player 1 has two ties and player 2 two losses. *)
Theorem dealer_natural_counts_loss_twice :
  let r := roundOf (Game.firstRound 0 naturalRng 1 []) in
  let r2 := roundOf (Game.firstRound 0 twoNaturalsRng 2 [Game.Stand]) in
  Game.firstRound 0 naturalRng 1 [] = Some r
  ∧ Hand.evaluateHandScore <$> Game.revealed r = [19; 21]
  ∧ GameStats.playerLosses (GameStats.new 1) = [0]
  ∧ GameStats.playerLosses
      (Game.checkBlackjack (Game.revealed r) (GameStats.new 1) 1) = [1]
  ∧ GameStats.playerLosses (Game.stats r) = [2]
  ∧ GameStats.playerWins (Game.stats r) = [0]
  ∧ GameStats.playerTies (Game.stats r) = [0]
  ∧ GameStats.totalRounds (Game.stats r) = 1
  ∧ GameStats.playerTies (Game.stats r2) = [2; 0]
  ∧ GameStats.playerLosses (Game.stats r2) = [0; 2]
  ∧ GameStats.totalRounds (Game.stats r2) = 1.
Proof. vm_compute. repeat split; reflexivity. Qed.
